(** * OpenReplica: the realtime session-synchronisation core

    A shallow embedding of the frontend's session store
    ([frontend/src/store/sessionStore.ts]), of the connection slice of the
    application store ([frontend/src/store/appStore.ts]) and of the
    [useWebSocket] hook (connect / handleMessage / sendMessage / disconnect),
    followed by the properties of the streaming accumulator, of the event
    dispatcher and of the reconnection policy. The components that read
    and write the stores (header, sidebar, session page) and the listener
    registry of the socket.io service are embedded as well, with the
    properties of the remaining store operations.

    Conventions.
    - A TypeScript optional field [f?: T] is an [option T]; [None] is
      [undefined].
    - JavaScript truthiness is written out ([truthy], [truthy_opt]): the
      empty string and [undefined] are falsy.
    - A [Record<string, V>] is a [gmap string V].
    - Code that can throw lives in the monad [Js]: a state monad over the
      [World] with JavaScript completions (normal or thrown).  The effects
      of a handler that throws half-way are kept, as in JavaScript. *)

From Stdlib Require Import ZArith.
From stdpp Require Import base option list strings gmap.

Open Scope string_scope.
Open Scope list_scope.

(** ** JavaScript truthiness of strings *)

Definition truthy (s : string) : bool :=
  match s with
  | EmptyString => false
  | String _ _ => true
  end.

Definition truthy_opt (o : option string) : bool :=
  match o with
  | Some s => truthy s
  | None => false
  end.

(** [a || b] on an optional string with a string default. *)
Definition or_default (o : option string) (d : string) : string :=
  match o with
  | Some s => if truthy s then s else d
  | None => d
  end.

(** Interpolation [`${x}`] of an optional string. *)
Definition interpolate (o : option string) : string :=
  match o with
  | Some s => s
  | None => "undefined"
  end.

(** ** Data model of [sessionStore.ts] *)

Module Store.

(** [Record<string, any>]: the values are never inspected by the code
    modelled here and are kept as text. *)
Abbreviation Dict := (gmap string string).

Inductive SessionStatus := SessActive | SessPaused | SessCompleted | SessError.

Record Session := mkSession {
  sess_id : string;
  sess_title : string;
  sess_description : option string;
  sess_status : SessionStatus;
  llm_provider : string;
  llm_model : string;
  temperature : string;
  max_tokens : Z;
  workspace_path : option string;
  git_repo : option string;
  branch : string;
  sess_metadata : Dict;
  sess_created_at : string;
  sess_updated_at : string
}.

Inductive Role := user | assistant | system.
Inductive MessageType := text | code | image | file.

Record Message := mkMessage {
  msg_id : string;
  conversation_id : string;
  role : Role;
  content : string;
  message_type : MessageType;
  tokens_used : Z;
  execution_time : option string;
  msg_metadata : Dict;
  msg_created_at : string;
  msg_updated_at : string
}.

Inductive ConversationStatus := ConvActive | ConvCompleted | ConvError.

Record Conversation := mkConversation {
  conv_id : string;
  session_id : string;
  conv_title : string;
  conv_status : ConversationStatus;
  agent_type : string;
  agent_config : Dict;
  conv_metadata : Dict;
  messages : list Message;
  conv_created_at : string;
  conv_updated_at : string
}.

Inductive AgentStatus := idle | thinking | responding | executing | error.

(** The state held by [useSessionStore]; [wsConnection] holds the identity
    of a transport (its index in the world's table of sockets). *)
Record SessionState := mkSessionState {
  currentSession : option Session;
  sessions : list Session;
  currentConversation : option Conversation;
  conversations : gmap string (list Conversation);
  isLoading : bool;
  wsConnection : option nat;
  agentStatus : AgentStatus;
  currentResponse : string
}.

(** The initial state of the store. *)
Definition initial : SessionState :=
  {| currentSession := None; sessions := [];
     currentConversation := None; conversations := ∅;
     isLoading := false; wsConnection := None;
     agentStatus := idle; currentResponse := "" |}.

(** [{ ...c, messages: ms }] *)
Definition with_messages (c : Conversation) (ms : list Message) : Conversation :=
  {| conv_id := conv_id c; session_id := session_id c;
     conv_title := conv_title c; conv_status := conv_status c;
     agent_type := agent_type c; agent_config := agent_config c;
     conv_metadata := conv_metadata c; messages := ms;
     conv_created_at := conv_created_at c;
     conv_updated_at := conv_updated_at c |}.

(** The body of the [map] callback and of the conditional on
    [currentConversation] in [addMessage]:
    [c.id === message.conversation_id
       ? { ...c, messages: [...c.messages, message] } : c]. *)
Definition append_if_target (message : Message) (c : Conversation) : Conversation :=
  if decide (conv_id c = conversation_id message)
  then with_messages c (messages c ++ [message])
  else c.

(** [addMessage]: the updater passed to zustand's [set], merged into the
    state (every field the updater does not return is kept). *)
Definition addMessage (message : Message) (state : SessionState) : SessionState :=
  let newConversations :=
    (λ cs : list Conversation, append_if_target message <$> cs)
      <$> conversations state in
  {| currentSession := currentSession state;
     sessions := sessions state;
     currentConversation := append_if_target message <$> currentConversation state;
     conversations := newConversations;
     isLoading := isLoading state;
     wsConnection := wsConnection state;
     agentStatus := agentStatus state;
     currentResponse := currentResponse state |}.

(** [setWsConnection], [setAgentStatus], [setCurrentResponse],
    [addToCurrentResponse], [clearCurrentResponse]. *)
Definition setWsConnection (ws : option nat) (state : SessionState) : SessionState :=
  {| currentSession := currentSession state;
     sessions := sessions state;
     currentConversation := currentConversation state;
     conversations := conversations state;
     isLoading := isLoading state;
     wsConnection := ws;
     agentStatus := agentStatus state;
     currentResponse := currentResponse state |}.

Definition setAgentStatus (status : AgentStatus) (state : SessionState) : SessionState :=
  {| currentSession := currentSession state;
     sessions := sessions state;
     currentConversation := currentConversation state;
     conversations := conversations state;
     isLoading := isLoading state;
     wsConnection := wsConnection state;
     agentStatus := status;
     currentResponse := currentResponse state |}.

Definition setCurrentResponse (response : string) (state : SessionState) : SessionState :=
  {| currentSession := currentSession state;
     sessions := sessions state;
     currentConversation := currentConversation state;
     conversations := conversations state;
     isLoading := isLoading state;
     wsConnection := wsConnection state;
     agentStatus := agentStatus state;
     currentResponse := response |}.

Definition addToCurrentResponse (chunk : string) (state : SessionState) : SessionState :=
  setCurrentResponse (currentResponse state +:+ chunk) state.

Definition clearCurrentResponse (state : SessionState) : SessionState :=
  setCurrentResponse "" state.

(** *** The other operations of the store *)

(** [Partial<Session>], [Partial<Conversation>], [Partial<Message>]: a key
    is either absent ([None]) or carries a value of the field's type. *)
Record SessionPatch := mkSessionPatch {
  patch_sess_id : option string;
  patch_sess_title : option string;
  patch_sess_description : option string;
  patch_sess_status : option SessionStatus;
  patch_llm_provider : option string;
  patch_llm_model : option string;
  patch_temperature : option string;
  patch_max_tokens : option Z;
  patch_workspace_path : option string;
  patch_git_repo : option string;
  patch_branch : option string;
  patch_sess_metadata : option Dict;
  patch_sess_created_at : option string;
  patch_sess_updated_at : option string
}.

Record ConversationPatch := mkConversationPatch {
  patch_conv_id : option string;
  patch_session_id : option string;
  patch_conv_title : option string;
  patch_conv_status : option ConversationStatus;
  patch_agent_type : option string;
  patch_agent_config : option Dict;
  patch_conv_metadata : option Dict;
  patch_messages : option (list Message);
  patch_conv_created_at : option string;
  patch_conv_updated_at : option string
}.

Record MessagePatch := mkMessagePatch {
  patch_msg_id : option string;
  patch_conversation_id : option string;
  patch_role : option Role;
  patch_content : option string;
  patch_message_type : option MessageType;
  patch_tokens_used : option Z;
  patch_execution_time : option string;
  patch_msg_metadata : option Dict;
  patch_msg_created_at : option string;
  patch_msg_updated_at : option string
}.

(** A patched optional field: the patch's value when the key is there. *)
Definition patched_opt {A} (old : option A) (new : option A) : option A :=
  match new with
  | Some v => Some v
  | None => old
  end.

(** [{ ...s, ...updates }] *)
Definition merge_session (s : Session) (updates : SessionPatch) : Session :=
  {| sess_id := default (sess_id s) (patch_sess_id updates);
     sess_title := default (sess_title s) (patch_sess_title updates);
     sess_description := patched_opt (sess_description s) (patch_sess_description updates);
     sess_status := default (sess_status s) (patch_sess_status updates);
     llm_provider := default (llm_provider s) (patch_llm_provider updates);
     llm_model := default (llm_model s) (patch_llm_model updates);
     temperature := default (temperature s) (patch_temperature updates);
     max_tokens := default (max_tokens s) (patch_max_tokens updates);
     workspace_path := patched_opt (workspace_path s) (patch_workspace_path updates);
     git_repo := patched_opt (git_repo s) (patch_git_repo updates);
     branch := default (branch s) (patch_branch updates);
     sess_metadata := default (sess_metadata s) (patch_sess_metadata updates);
     sess_created_at := default (sess_created_at s) (patch_sess_created_at updates);
     sess_updated_at := default (sess_updated_at s) (patch_sess_updated_at updates) |}.

(** [{ ...c, ...updates }] *)
Definition merge_conversation (c : Conversation) (updates : ConversationPatch)
  : Conversation :=
  {| conv_id := default (conv_id c) (patch_conv_id updates);
     session_id := default (session_id c) (patch_session_id updates);
     conv_title := default (conv_title c) (patch_conv_title updates);
     conv_status := default (conv_status c) (patch_conv_status updates);
     agent_type := default (agent_type c) (patch_agent_type updates);
     agent_config := default (agent_config c) (patch_agent_config updates);
     conv_metadata := default (conv_metadata c) (patch_conv_metadata updates);
     messages := default (messages c) (patch_messages updates);
     conv_created_at := default (conv_created_at c) (patch_conv_created_at updates);
     conv_updated_at := default (conv_updated_at c) (patch_conv_updated_at updates) |}.

(** [{ ...m, ...updates }] *)
Definition merge_message (m : Message) (updates : MessagePatch) : Message :=
  {| msg_id := default (msg_id m) (patch_msg_id updates);
     conversation_id := default (conversation_id m) (patch_conversation_id updates);
     role := default (role m) (patch_role updates);
     content := default (content m) (patch_content updates);
     message_type := default (message_type m) (patch_message_type updates);
     tokens_used := default (tokens_used m) (patch_tokens_used updates);
     execution_time := patched_opt (execution_time m) (patch_execution_time updates);
     msg_metadata := default (msg_metadata m) (patch_msg_metadata updates);
     msg_created_at := default (msg_created_at m) (patch_msg_created_at updates);
     msg_updated_at := default (msg_updated_at m) (patch_msg_updated_at updates) |}.

(** The setters of single fields. *)
Definition setCurrentSession (session : option Session) (state : SessionState)
  : SessionState :=
  {| currentSession := session;
     sessions := sessions state;
     currentConversation := currentConversation state;
     conversations := conversations state;
     isLoading := isLoading state;
     wsConnection := wsConnection state;
     agentStatus := agentStatus state;
     currentResponse := currentResponse state |}.

Definition setSessions (new_sessions : list Session) (state : SessionState)
  : SessionState :=
  {| currentSession := currentSession state;
     sessions := new_sessions;
     currentConversation := currentConversation state;
     conversations := conversations state;
     isLoading := isLoading state;
     wsConnection := wsConnection state;
     agentStatus := agentStatus state;
     currentResponse := currentResponse state |}.

Definition setCurrentConversation (conversation : option Conversation)
    (state : SessionState) : SessionState :=
  {| currentSession := currentSession state;
     sessions := sessions state;
     currentConversation := conversation;
     conversations := conversations state;
     isLoading := isLoading state;
     wsConnection := wsConnection state;
     agentStatus := agentStatus state;
     currentResponse := currentResponse state |}.

(** The state with new [conversations] and a new [currentConversation]:
    what [set] does with the object the conversation updaters return. *)
Definition with_conversations (convs : gmap string (list Conversation))
    (current : option Conversation) (state : SessionState) : SessionState :=
  {| currentSession := currentSession state;
     sessions := sessions state;
     currentConversation := current;
     conversations := convs;
     isLoading := isLoading state;
     wsConnection := wsConnection state;
     agentStatus := agentStatus state;
     currentResponse := currentResponse state |}.

Definition setLoading (loading : bool) (state : SessionState) : SessionState :=
  {| currentSession := currentSession state;
     sessions := sessions state;
     currentConversation := currentConversation state;
     conversations := conversations state;
     isLoading := loading;
     wsConnection := wsConnection state;
     agentStatus := agentStatus state;
     currentResponse := currentResponse state |}.

(** [addSession]: [sessions: [session, ...state.sessions]]. *)
Definition addSession (session : Session) (state : SessionState) : SessionState :=
  setSessions (session :: sessions state) state.

(** [s.id === sessionId ? { ...s, ...updates } : s] *)
Definition update_if_session (sessionId : string) (updates : SessionPatch)
    (s : Session) : Session :=
  if decide (sess_id s = sessionId) then merge_session s updates else s.

Definition updateSession (sessionId : string) (updates : SessionPatch)
    (state : SessionState) : SessionState :=
  setCurrentSession (update_if_session sessionId updates <$> currentSession state)
    (setSessions (update_if_session sessionId updates <$> sessions state) state).

Definition removeSession (sessionId : string) (state : SessionState) : SessionState :=
  setCurrentSession
    (match currentSession state with
     | Some c => if decide (sess_id c = sessionId) then None else Some c
     | None => None
     end)
    (setSessions (filter (λ s, sess_id s ≠ sessionId) (sessions state)) state).

(** [setConversations]:
    [{ ...state.conversations, [sessionId]: conversations }]. *)
Definition setConversations (sessionId : string) (convs : list Conversation)
    (state : SessionState) : SessionState :=
  with_conversations (<[sessionId := convs]> (conversations state))
    (currentConversation state) state.

(** The names every plain object inherits from [Object.prototype]. *)
Definition object_prototype_keys : list string :=
  [ "constructor"; "__defineGetter__"; "__defineSetter__"; "hasOwnProperty";
    "__lookupGetter__"; "__lookupSetter__"; "isPrototypeOf";
    "propertyIsEnumerable"; "toString"; "valueOf"; "__proto__";
    "toLocaleString" ].

(** [...(state.conversations[key] || [])] inside an array literal.
    [state.conversations] is a plain object: a key it does not own is
    looked up on [Object.prototype]; what is found there (a function, or
    the prototype itself) is truthy and not iterable, so that spreading it
    throws a TypeError, written [None]. *)
Definition spread_or_empty (convs : gmap string (list Conversation)) (key : string)
  : option (list Conversation) :=
  match convs !! key with
  | Some cs => Some cs
  | None => if decide (key ∈ object_prototype_keys) then None else Some []
  end.

(** [addConversation]: the conversation is put in front of the list of its
    session. [None]: the updater throws, and the store keeps its state. *)
Definition addConversation (conversation : Conversation) (state : SessionState)
  : option SessionState :=
  rest ← spread_or_empty (conversations state) (session_id conversation);
  Some (with_conversations
          (<[session_id conversation := conversation :: rest]> (conversations state))
          (currentConversation state) state).

(** [c.id === conversationId ? { ...c, ...updates } : c] *)
Definition update_if_conversation (conversationId : string)
    (updates : ConversationPatch) (c : Conversation) : Conversation :=
  if decide (conv_id c = conversationId) then merge_conversation c updates else c.

Definition updateConversation (conversationId : string) (updates : ConversationPatch)
    (state : SessionState) : SessionState :=
  with_conversations
    ((λ cs : list Conversation, update_if_conversation conversationId updates <$> cs)
       <$> conversations state)
    (update_if_conversation conversationId updates <$> currentConversation state)
    state.

(** [m.id === messageId ? { ...m, ...updates } : m] *)
Definition update_if_message (messageId : string) (updates : MessagePatch)
    (m : Message) : Message :=
  if decide (msg_id m = messageId) then merge_message m updates else m.

(** [{ ...c, messages: c.messages.map(...) }] *)
Definition update_messages_of (messageId : string) (updates : MessagePatch)
    (c : Conversation) : Conversation :=
  with_messages c (update_if_message messageId updates <$> messages c).

Definition updateMessage (messageId : string) (updates : MessagePatch)
    (state : SessionState) : SessionState :=
  with_conversations
    ((λ cs : list Conversation, update_messages_of messageId updates <$> cs)
       <$> conversations state)
    (update_messages_of messageId updates <$> currentConversation state)
    state.

End Store.

(** ** The connection slice of [appStore.ts] *)

Module App.

Inductive Theme := light | dark.

Record Preferences := mkPreferences {
  defaultLLMProvider : string;
  defaultLLMModel : string;
  autoSave : bool;
  showLineNumbers : bool;
  fontSize : Z;
  tabSize : Z
}.

Record AppState := mkAppState {
  theme : Theme;
  preferences : Preferences;
  sidebarOpen : bool;
  isConnected : bool;
  isInitialized : bool
}.

Definition initial : AppState :=
  {| theme := light;
     preferences := {| defaultLLMProvider := "openai"; defaultLLMModel := "gpt-4";
                       autoSave := true; showLineNumbers := true;
                       fontSize := 14; tabSize := 2 |};
     sidebarOpen := true; isConnected := false; isInitialized := false |}.

Definition setConnectionStatus (connected : bool) (state : AppState) : AppState :=
  {| theme := theme state; preferences := preferences state;
     sidebarOpen := sidebarOpen state; isConnected := connected;
     isInitialized := isInitialized state |}.

(** [Partial<AppState['preferences']>] *)
Record PreferencesPatch := mkPreferencesPatch {
  patch_defaultLLMProvider : option string;
  patch_defaultLLMModel : option string;
  patch_autoSave : option bool;
  patch_showLineNumbers : option bool;
  patch_fontSize : option Z;
  patch_tabSize : option Z
}.

(** [{ ...state.preferences, ...newPreferences }] *)
Definition merge_preferences (p : Preferences) (u : PreferencesPatch) : Preferences :=
  {| defaultLLMProvider := default (defaultLLMProvider p) (patch_defaultLLMProvider u);
     defaultLLMModel := default (defaultLLMModel p) (patch_defaultLLMModel u);
     autoSave := default (autoSave p) (patch_autoSave u);
     showLineNumbers := default (showLineNumbers p) (patch_showLineNumbers u);
     fontSize := default (fontSize p) (patch_fontSize u);
     tabSize := default (tabSize p) (patch_tabSize u) |}.

Definition toggleTheme (state : AppState) : AppState :=
  {| theme := match theme state with light => dark | dark => light end;
     preferences := preferences state;
     sidebarOpen := sidebarOpen state; isConnected := isConnected state;
     isInitialized := isInitialized state |}.

Definition updatePreferences (newPreferences : PreferencesPatch) (state : AppState)
  : AppState :=
  {| theme := theme state;
     preferences := merge_preferences (preferences state) newPreferences;
     sidebarOpen := sidebarOpen state; isConnected := isConnected state;
     isInitialized := isInitialized state |}.

Definition setSidebarOpen (open : bool) (state : AppState) : AppState :=
  {| theme := theme state; preferences := preferences state;
     sidebarOpen := open; isConnected := isConnected state;
     isInitialized := isInitialized state |}.

(** [initializeApp]; [prefers_dark] is what
    [window.matchMedia('(prefers-color-scheme: dark)').matches] answers. *)
Definition initializeApp (prefers_dark : bool) (state : AppState) : AppState :=
  if negb (isInitialized state) then
    {| theme := if prefers_dark then dark else light;
       preferences := preferences state;
       sidebarOpen := sidebarOpen state; isConnected := isConnected state;
       isInitialized := true |}
  else state.

End App.

(** ** The browser as the hook sees it *)

Inductive ReadyState := CONNECTING | OPEN | CLOSING | CLOSED.

(** What the client hands to [WebSocket.send]: the ping
    [JSON.stringify({type: 'ping', timestamp})] or the text of the
    argument of [sendMessage]. *)
Inductive OutFrame :=
| Ping (timestamp : Z)
| Payload (json : string).

(** A transport.  [closeCall] records the arguments of the client's
    [close(code, reason)], if it was called. *)
Record WebSocket := mkWebSocket {
  url : string;
  readyState : ReadyState;
  outbox : list OutFrame;
  closeCall : option (Z * string)
}.

(** A timer created by [setTimeout]; [pending] is cleared by
    [clearTimeout] and when the timer fires. *)
Record Timer := mkTimer {
  delay : Z;
  pending : bool
}.

(** The calls made to [react-hot-toast]. *)
Inductive Toast :=
| ToastLoading (msg id : string)
| ToastDismiss (id : string)
| ToastSuccess (msg : string)
| ToastError (msg : string).

(** What does not change during the life of one hook instance: its
    argument [sessionId], [window.location], and which URLs the
    [WebSocket] constructor rejects by throwing. *)
Record Env := mkEnv {
  sessionId : option string;
  location_protocol : string;
  location_host : string;
  ctor_throws : string → bool
}.

(** The mutable world: the browser's sockets (a socket is named by its
    index) and timers (a timer handle is its index; the browser's handles
    are positive numbers, hence always truthy), the toasts shown, both
    stores, and the three refs of the hook. *)
Record World := mkWorld {
  sockets : list WebSocket;
  timers : list Timer;
  toasts : list Toast;
  session : Store.SessionState;
  app : App.AppState;
  wsRef : option nat;
  reconnectTimeoutRef : option nat;
  reconnectAttemptsRef : nat
}.

Definition set_sockets (x : list WebSocket) (w : World) : World :=
  {| sockets := x; timers := timers w; toasts := toasts w;
     session := session w; app := app w; wsRef := wsRef w;
     reconnectTimeoutRef := reconnectTimeoutRef w;
     reconnectAttemptsRef := reconnectAttemptsRef w |}.

Definition set_timers (x : list Timer) (w : World) : World :=
  {| sockets := sockets w; timers := x; toasts := toasts w;
     session := session w; app := app w; wsRef := wsRef w;
     reconnectTimeoutRef := reconnectTimeoutRef w;
     reconnectAttemptsRef := reconnectAttemptsRef w |}.

Definition set_toasts (x : list Toast) (w : World) : World :=
  {| sockets := sockets w; timers := timers w; toasts := x;
     session := session w; app := app w; wsRef := wsRef w;
     reconnectTimeoutRef := reconnectTimeoutRef w;
     reconnectAttemptsRef := reconnectAttemptsRef w |}.

Definition set_session (x : Store.SessionState) (w : World) : World :=
  {| sockets := sockets w; timers := timers w; toasts := toasts w;
     session := x; app := app w; wsRef := wsRef w;
     reconnectTimeoutRef := reconnectTimeoutRef w;
     reconnectAttemptsRef := reconnectAttemptsRef w |}.

Definition set_app (x : App.AppState) (w : World) : World :=
  {| sockets := sockets w; timers := timers w; toasts := toasts w;
     session := session w; app := x; wsRef := wsRef w;
     reconnectTimeoutRef := reconnectTimeoutRef w;
     reconnectAttemptsRef := reconnectAttemptsRef w |}.

Definition set_wsRef (x : option nat) (w : World) : World :=
  {| sockets := sockets w; timers := timers w; toasts := toasts w;
     session := session w; app := app w; wsRef := x;
     reconnectTimeoutRef := reconnectTimeoutRef w;
     reconnectAttemptsRef := reconnectAttemptsRef w |}.

Definition set_reconnectTimeoutRef (x : option nat) (w : World) : World :=
  {| sockets := sockets w; timers := timers w; toasts := toasts w;
     session := session w; app := app w; wsRef := wsRef w;
     reconnectTimeoutRef := x;
     reconnectAttemptsRef := reconnectAttemptsRef w |}.

Definition set_reconnectAttemptsRef (x : nat) (w : World) : World :=
  {| sockets := sockets w; timers := timers w; toasts := toasts w;
     session := session w; app := app w; wsRef := wsRef w;
     reconnectTimeoutRef := reconnectTimeoutRef w;
     reconnectAttemptsRef := x |}.

(** The world when the hook is first mounted. *)
Definition initial_world : World :=
  {| sockets := []; timers := []; toasts := [];
     session := Store.initial; app := App.initial;
     wsRef := None; reconnectTimeoutRef := None; reconnectAttemptsRef := 0 |}.

(** ** The monad of JavaScript code *)

Inductive Exn :=
| SyntaxError          (* JSON.parse; the WebSocket constructor *)
| TypeError            (* property access on null *)
| InvalidStateError    (* send() on a CONNECTING socket *)
| InvalidAccessError.  (* close() with a code that is not allowed *)

Inductive Completion (A : Type) :=
| Normal (a : A)
| Thrown (e : Exn).
Arguments Normal {A} a.
Arguments Thrown {A} e.

Definition Js (A : Type) : Type := World → Completion A * World.

#[global] Instance Js_ret : MRet Js := λ A a w, (Normal a, w).

#[global] Instance Js_bind : MBind Js := λ A B k m w,
  match m w with
  | (Normal a, w') => k a w'
  | (Thrown e, w') => (Thrown e, w')
  end.

Definition throw {A} (e : Exn) : Js A := λ w, (Thrown e, w).

(** [try { body } catch (error) { handler }] *)
Definition try_catch (body : Js unit) (handler : Exn → Js unit) : Js unit := λ w,
  match body w with
  | (Normal a, w') => (Normal a, w')
  | (Thrown e, w') => handler e w'
  end.

Definition gets {A} (f : World → A) : Js A := λ w, (Normal (f w), w).
Definition modify (f : World → World) : Js unit := λ w, (Normal tt, f w).

(** The world a computation leaves, and whether it completed normally. *)
Definition exec {A} (m : Js A) (w : World) : World := (m w).2.

Definition returns {A} (m : Js A) (w : World) : bool :=
  match (m w).1 with
  | Normal _ => true
  | Thrown _ => false
  end.

(** ** Browser primitives *)

(** [new WebSocket(url)]: throws where the environment says so, otherwise
    adds a CONNECTING socket to the world and returns it. *)
Definition new_WebSocket (env : Env) (wsUrl : string) : Js nat :=
  if ctor_throws env wsUrl then throw SyntaxError
  else
    n ← gets (λ w, length (sockets w));
    modify (λ w, set_sockets (sockets w ++ [mkWebSocket wsUrl CONNECTING [] None]) w);;
    mret n.

Definition with_readyState (rs : ReadyState) (s : WebSocket) : WebSocket :=
  {| url := url s; readyState := rs; outbox := outbox s; closeCall := closeCall s |}.

(** [ws.send(data)]: throws on a CONNECTING socket, transmits on an OPEN
    one, and silently discards the data on a CLOSING or CLOSED one. *)
Definition ws_send (i : nat) (data : OutFrame) : Js unit :=
  so ← gets (λ w, sockets w !! i);
  match so with
  | Some s =>
      match readyState s with
      | CONNECTING => throw InvalidStateError
      | OPEN =>
          modify (λ w, set_sockets
            (<[i := mkWebSocket (url s) OPEN (outbox s ++ [data]) (closeCall s)]> (sockets w)) w)
      | CLOSING | CLOSED => mret tt
      end
  | None => mret tt
  end.

Definition is_live (rs : ReadyState) : bool :=
  match rs with
  | CONNECTING | OPEN => true
  | CLOSING | CLOSED => false
  end.

(** The start of the closing handshake: a socket that is CONNECTING or
    OPEN becomes CLOSING, one that is CLOSING or CLOSED is left alone. *)
Definition begin_close (i : nat) (code : Z) (reason : string) (w : World) : World :=
  match sockets w !! i with
  | Some s =>
      if is_live (readyState s)
      then set_sockets
             (<[i := mkWebSocket (url s) CLOSING (outbox s) (Some (code, reason))]>
                (sockets w)) w
      else w
  | None => w
  end.

(** [ws.close(code, reason)]: the code must be 1000 or in 3000..4999. *)
Definition ws_close (i : nat) (code : Z) (reason : string) : Js unit :=
  if negb ((code =? 1000)%Z || ((3000 <=? code)%Z && (code <=? 4999)%Z))
  then throw InvalidAccessError
  else modify (begin_close i code reason).

(** [setTimeout(callback, delay)]; the hook has one callback only (see
    [reconnect_callback] below), so a timer records its delay. *)
Definition setTimeout (ms : Z) : Js nat :=
  h ← gets (λ w, length (timers w));
  modify (λ w, set_timers (timers w ++ [mkTimer ms true]) w);;
  mret h.

Definition cancel (t : Timer) : Timer := {| delay := delay t; pending := false |}.

(** Timer [h] is no longer pending (it was cleared, or it has fired). *)
Definition expire (h : nat) (w : World) : World :=
  set_timers (alter cancel h (timers w)) w.

Definition clearTimeout (h : nat) : Js unit := modify (expire h).

Definition toast (t : Toast) : Js unit :=
  modify (λ w, set_toasts (toasts w ++ [t]) w).

(** ** The store operations the hook destructures *)

Definition setConnectionStatus (connected : bool) : Js unit :=
  modify (λ w, set_app (App.setConnectionStatus connected (app w)) w).

Definition setWsConnection (ws : option nat) : Js unit :=
  modify (λ w, set_session (Store.setWsConnection ws (session w)) w).

Definition setAgentStatus (status : Store.AgentStatus) : Js unit :=
  modify (λ w, set_session (Store.setAgentStatus status (session w)) w).

Definition addToCurrentResponse (chunk : string) : Js unit :=
  modify (λ w, set_session (Store.addToCurrentResponse chunk (session w)) w).

Definition clearCurrentResponse : Js unit :=
  modify (λ w, set_session (Store.clearCurrentResponse (session w)) w).

Definition addMessage (message : Store.Message) : Js unit :=
  modify (λ w, set_session (Store.addMessage message (session w)) w).

(** ** Inbound frames *)

(** [WebSocketMessage]: the declared fields, and the fields read through
    the index signature ([success] is only tested for truthiness). *)
Record WebSocketMessage := mkWebSocketMessage {
  type : string;
  content : option string;
  session_id : option string;
  conversation_id : option string;
  full_response : option string;
  timestamp : option Z;
  success : bool;
  action : option string;
  filepath : option string;
  error : option string;
  message : option string
}.

(** What [JSON.parse] makes of a frame: [null], or an object read as a
    [WebSocketMessage]. *)
Inductive JsValue :=
| JsNull
| JsObject (m : WebSocketMessage).

(** [event.data], by what [JSON.parse] does with it. *)
Inductive Frame :=
| Malformed (data : string)
| Json (v : JsValue).

Definition JSON_parse (f : Frame) : Js JsValue :=
  match f with
  | Malformed _ => throw SyntaxError
  | Json v => mret v
  end.

(** [crypto.randomUUID()] and the two [new Date().toISOString()] read while
    a frame is handled. *)
Record Clock := mkClock {
  uuid : string;
  now_created : string;
  now_updated : string
}.

(** ** The hook [useWebSocket] *)

Definition maxReconnectAttempts : nat := 5.

(** Reading a property of the parsed value: [null.type] throws. *)
Definition fields (v : JsValue) : Js WebSocketMessage :=
  match v with
  | JsNull => throw TypeError
  | JsObject m => mret m
  end.

(** The object literal handed to [addMessage] by the
    ['agent_response_end'] case; [full] is [message.full_response]. *)
Definition assistant_message (m : WebSocketMessage) (full : string) (clk : Clock)
  : Store.Message :=
  {| Store.msg_id := uuid clk;
     Store.conversation_id := or_default (conversation_id m) "";
     Store.role := Store.assistant;
     Store.content := full;
     Store.message_type := Store.text;
     Store.tokens_used := 0;
     Store.execution_time := None;
     Store.msg_metadata := ∅;
     Store.msg_created_at := now_created clk;
     Store.msg_updated_at := now_updated clk |}.

Definition handleMessage (v : JsValue) (clk : Clock) : Js unit :=
  m ← fields v;
  if type m =? "pong" then
    mret tt
  else if type m =? "agent_response_start" then
    setAgentStatus Store.responding;;
    clearCurrentResponse
  else if type m =? "agent_response_chunk" then
    match content m with
    | Some c => if truthy c then addToCurrentResponse c else mret tt
    | None => mret tt
    end
  else if type m =? "agent_response_end" then
    setAgentStatus Store.idle;;
    match full_response m with
    | Some full =>
        if truthy full then
          addMessage (assistant_message m full clk)
        else mret tt
    | None => mret tt
    end;;
    clearCurrentResponse
  else if type m =? "code_execution" then
    setAgentStatus Store.executing;;
    toast (ToastLoading "Executing code..." "code-execution")
  else if type m =? "code_result" then
    setAgentStatus Store.idle;;
    toast (ToastDismiss "code-execution");;
    if success m then toast (ToastSuccess "Code executed successfully")
    else toast (ToastError "Code execution failed")
  else if type m =? "file_change" then
    toast (ToastSuccess ("File " +:+ interpolate (action m) +:+ ": " +:+ interpolate (filepath m)))
  else if type m =? "agent_error" then
    setAgentStatus Store.error;;
    toast (ToastError ("Agent error: " +:+ interpolate (error m)))
  else if type m =? "error" then
    toast (ToastError (or_default (message m) "An error occurred"))
  else
    mret tt.

(** The constant [wsUrl] of [connect]. *)
Definition wsUrl (env : Env) : string :=
  let protocol := if location_protocol env =? "https:" then "wss:" else "ws:" in
  protocol +:+ "//" +:+ location_host env +:+ "/ws/" +:+ interpolate (sessionId env).

(** [connect]; the four handlers it installs on the new socket are
    [onopen], [onmessage], [onclose] and [onerror] below: every socket of
    the world was made here and carries them. *)
Definition connect (env : Env) : Js unit :=
  if negb (truthy_opt (sessionId env)) then mret tt
  else
    try_catch
      (ws ← new_WebSocket env (wsUrl env);
       modify (set_wsRef (Some ws)))
      (λ _, setConnectionStatus false).

Definition onopen (now : Z) : Js unit :=
  setConnectionStatus true;;
  ws ← gets wsRef;
  setWsConnection ws;;
  modify (set_reconnectAttemptsRef 0);;
  match ws with
  | Some i => ws_send i (Ping now)
  | None => mret tt
  end.

Definition onmessage (data : Frame) (clk : Clock) : Js unit :=
  try_catch
    (v ← JSON_parse data;
     handleMessage v clk)
    (λ _, mret tt).

(** The callback handed to [setTimeout] by [onclose]. *)
Definition reconnect_callback (env : Env) : Js unit :=
  modify (λ w, set_reconnectAttemptsRef (S (reconnectAttemptsRef w)) w);;
  connect env.

Definition backoff_delay (attempts : nat) : Z :=
  Z.min (1000 * 2 ^ Z.of_nat attempts) 30000.

Definition onclose (code : Z) : Js unit :=
  setConnectionStatus false;;
  setWsConnection None;;
  setAgentStatus Store.idle;;
  attempts ← gets reconnectAttemptsRef;
  if negb (code =? 1000)%Z && (attempts <? maxReconnectAttempts)%nat then
    h ← setTimeout (backoff_delay attempts);
    modify (set_reconnectTimeoutRef (Some h))
  else mret tt.

Definition onerror : Js unit :=
  setConnectionStatus false.

(** The argument of [sendMessage], of type [any], by what [JSON.stringify]
    makes of it: a text; [undefined] (for [undefined], a function or a
    symbol); or an exception (a circular structure, a BigInt). *)
Inductive AnyValue :=
| Stringifies (json : string)
| StringifiesToUndefined
| NotStringifiable.

Definition JSON_stringify (v : AnyValue) : Js (option string) :=
  match v with
  | Stringifies json => mret (Some json)
  | StringifiesToUndefined => mret None
  | NotStringifiable => throw TypeError
  end.

(** [sendMessage]; [send] converts its argument to a string, so that
    [undefined] is sent as the text ["undefined"]. *)
Definition sendMessage (message : AnyValue) : Js bool :=
  ws ← gets wsRef;
  so ← gets (λ w, ws ≫= λ i, sockets w !! i);
  match ws, readyState <$> so with
  | Some i, Some OPEN =>
      data ← JSON_stringify message;
      ws_send i (Payload (interpolate data));;
      mret true
  | _, _ => toast (ToastError "Connection lost. Please refresh the page.");; mret false
  end.

Definition disconnect : Js unit :=
  t ← gets reconnectTimeoutRef;
  match t with
  | Some h => clearTimeout h
  | None => mret tt
  end;;
  ws ← gets wsRef;
  match ws with
  | Some i => ws_close i 1000 "Component unmounting"
  | None => mret tt
  end;;
  setConnectionStatus false;;
  setWsConnection None.

(** ** The event loop *)

(** What can happen to a mounted hook: the two calls of its users (the
    session effect calls [connect] on mount and [disconnect] on cleanup;
    [connect] is also exported as [reconnect]), the four events of a
    socket, and a timer firing. *)
Inductive Event :=
| Connect
| Disconnect
| Opened (i : nat) (now : Z)
| Received (i : nat) (data : Frame) (clk : Clock)
| Errored (i : nat)
| Closed (i : nat) (code : Z)
| TimerFired (h : nat).

#[global] Instance ReadyState_eq_dec : EqDecision ReadyState.
Proof. solve_decision. Defined.

(** Socket [i] exists and is CONNECTING or OPEN. *)
Definition live_at (w : World) (i : nat) : bool :=
  match sockets w !! i with
  | Some s => is_live (readyState s)
  | None => false
  end.

Definition open_at (w : World) (i : nat) : bool :=
  match sockets w !! i with
  | Some s => bool_decide (readyState s = OPEN)
  | None => false
  end.

(** Timer [h] exists and has neither fired nor been cleared. *)
Definition pending_at (w : World) (h : nat) : bool :=
  match timers w !! h with
  | Some t => pending t
  | None => false
  end.

(** The browser delivers [open] to a CONNECTING socket, [message] to an
    OPEN one, [error] and [close] to one that is not yet CLOSED, and fires
    pending timers only. *)
Definition enabled (e : Event) (w : World) : bool :=
  match e with
  | Connect | Disconnect => true
  | Opened i _ => bool_decide (readyState <$> sockets w !! i = Some CONNECTING)
  | Received i _ _ => open_at w i
  | Errored i | Closed i _ =>
      match sockets w !! i with
      | Some s => negb (bool_decide (readyState s = CLOSED))
      | None => false
      end
  | TimerFired h => pending_at w h
  end.

Definition set_readyState (i : nat) (rs : ReadyState) (w : World) : World :=
  set_sockets (alter (with_readyState rs) i (sockets w)) w.

(** The browser's own state change, then the handler of the hook. *)
Definition dispatch (env : Env) (e : Event) : Js unit :=
  match e with
  | Connect => connect env
  | Disconnect => disconnect
  | Opened i now => modify (set_readyState i OPEN);; onopen now
  | Received _ data clk => onmessage data clk
  | Errored _ => onerror
  | Closed i code => modify (set_readyState i CLOSED);; onclose code
  | TimerFired h => modify (expire h);; reconnect_callback env
  end.

(** One turn of the event loop; an exception that escapes a handler is
    reported by the browser and the loop goes on. *)
Definition step (env : Env) (w : World) (e : Event) : World :=
  if enabled e w then exec (dispatch env e) w else w.

Definition run (env : Env) (es : list Event) (w : World) : World :=
  foldl (step env) w es.

(** The frames of one socket, handled in arrival order. *)
Definition receive (frames : list (Frame * Clock)) (w : World) : World :=
  foldl (λ w fc, exec (onmessage fc.1 fc.2) w) w frames.

(** ** The components that read and write the stores *)

(** [getStatusColor] and [getStatusText] of the header, on the values the
    component reads from the two stores. *)
Definition getStatusColor (isConnected : bool) (agentStatus : Store.AgentStatus)
  : string :=
  if negb isConnected then "bg-error-500"
  else
    match agentStatus with
    | Store.thinking | Store.responding => "bg-primary-500 animate-pulse"
    | Store.executing => "bg-warning-500 animate-pulse"
    | Store.error => "bg-error-500"
    | Store.idle => "bg-success-500"
    end.

Definition getStatusText (isConnected : bool) (agentStatus : Store.AgentStatus)
  : string :=
  if negb isConnected then "Disconnected"
  else
    match agentStatus with
    | Store.thinking => "Thinking..."
    | Store.responding => "Responding..."
    | Store.executing => "Executing Code..."
    | Store.error => "Error"
    | Store.idle => "Ready"
    end.

(** [onSuccess] of the conversations query of the session page.
    [rendered_current] is the [currentConversation] the component read when
    it rendered the callback. *)
Definition conversations_onSuccess (sessionId : string)
    (rendered_current : option Store.Conversation)
    (conversations : list Store.Conversation)
    (state : Store.SessionState) : Store.SessionState :=
  let state1 := Store.setConversations sessionId conversations state in
  match conversations, rendered_current with
  | first :: _, None => Store.setCurrentConversation (Some first) state1
  | _, _ => state1
  end.

(** [handleCreateSession] of the sidebar. [rendered_sessions] is the
    [sessions] the component read when it rendered; [response] is the
    session the API answers with, [None] when the request is rejected (the
    only statement of the [try] block that can throw). *)
Definition handleCreateSession (rendered_sessions : list Store.Session)
    (response : option Store.Session) (w : World) : World :=
  match response with
  | Some newSession =>
      set_toasts (toasts w ++ [ToastSuccess "New session created!"])
        (set_session
           (Store.setSessions (newSession :: rendered_sessions) (session w)) w)
  | None => set_toasts (toasts w ++ [ToastError "Failed to create session"]) w
  end.

(** [handleDeleteSession] of the sidebar. [confirmed] is the answer to
    [confirm(...)], [deleted] tells whether [sessionAPI.delete] resolved. *)
Definition handleDeleteSession
    (rendered_sessions : list Store.Session)
    (rendered_current : option Store.Session)
    (sessionId : string) (confirmed deleted : bool) (w : World) : World :=
  if negb confirmed then w
  else if deleted then
    let w1 :=
      set_session
        (Store.setSessions
           (filter (λ s, Store.sess_id s ≠ sessionId) rendered_sessions)
           (session w)) w in
    let w2 :=
      match rendered_current with
      | Some c =>
          if decide (Store.sess_id c = sessionId)
          then set_session (Store.setCurrentSession None (session w1)) w1
          else w1
      | None => w1
      end in
    set_toasts (toasts w2 ++ [ToastSuccess "Session deleted"]) w2
  else set_toasts (toasts w ++ [ToastError "Failed to delete session"]) w.

(** ** The listener registry of the socket.io service *)

Module Listeners.

(** A callback is named by its identity. A JavaScript [Set] of callbacks is
    a list without repetition, in insertion order (the order of
    [forEach]); [listeners] is a [Map] from event types to such sets. *)
Abbreviation Registry := (gmap string (list nat)).

(** [Set.prototype.add] and [Set.prototype.delete]. *)
Definition set_add (callback : nat) (l : list nat) : list nat :=
  if decide (callback ∈ l) then l else l ++ [callback].

Definition set_delete (callback : nat) (l : list nat) : list nat :=
  filter (λ c, c ≠ callback) l.

(** [on(eventType, callback)], for its effect on [listeners]. *)
Definition on (eventType : string) (callback : nat) (listeners : Registry)
  : Registry :=
  let listeners1 :=
    match listeners !! eventType with
    | Some _ => listeners
    | None => <[eventType := []]> listeners
    end in
  alter (set_add callback) eventType listeners1.

(** The unsubscribe function that [on(eventType, callback)] returns. *)
Definition unsubscribe (eventType : string) (callback : nat) (listeners : Registry)
  : Registry :=
  match listeners !! eventType with
  | Some l =>
      let l' := set_delete callback l in
      if decide (length l' = 0) then delete eventType listeners
      else <[eventType := l']> listeners
  | None => listeners
  end.

(** [notifyListeners(eventType, message)]: the callbacks invoked, in
    order, and those whose exception was caught and logged. [throws] tells
    which callbacks throw; callbacks do not touch the registry. *)
Definition notifyListeners (throws : nat → bool) (eventType : string)
    (listeners : Registry) : list nat * list nat :=
  let typed := default [] (listeners !! eventType) in
  let wildcard := default [] (listeners !! "*") in
  (typed ++ wildcard, filter (λ c, throws c = true) typed ++ filter (λ c, throws c = true) wildcard).

End Listeners.

(** * Vocabulary of the statements *)

(** What [addMessage] does to one conversation, as a message list. *)
Definition messages_after (m : Store.Message) (c : Store.Conversation)
  : list Store.Message :=
  if decide (Store.conv_id c = Store.conversation_id m)
  then Store.messages c ++ [m] else Store.messages c.

(** No conversation of the store has the id [cid]: neither one of the
    lists of [conversations] nor the current conversation. *)
Definition unknown_conversation (cid : string) (st : Store.SessionState) : Prop :=
  (∀ (k : string) cs c,
     Store.conversations st !! k = Some cs → c ∈ cs → Store.conv_id c ≠ cid)
  ∧ (∀ c, Store.currentConversation st = Some c → Store.conv_id c ≠ cid).

(** The frame that decodes to the object [m]. *)
Definition object_frame (mc : WebSocketMessage * Clock) : Frame * Clock :=
  (Json (JsObject mc.1), mc.2).

(** The text a chunk frame contributes, and the in-arrival-order
    concatenation of the chunks of a list. *)
Definition chunk_text (m : WebSocketMessage) : string := default "" (content m).

Definition concat_chunks (chunks : list (WebSocketMessage * Clock)) : string :=
  foldr (λ mc acc, chunk_text mc.1 +:+ acc) "" chunks.

(** The table of event kinds, as the specification words it: the kinds
    that move the agent activity state, with the state each dictates. *)
Definition transition_of (kind : string) : option Store.AgentStatus :=
  if kind =? "agent_response_start" then Some Store.responding
  else if kind =? "agent_response_end" then Some Store.idle
  else if kind =? "code_execution" then Some Store.executing
  else if kind =? "code_result" then Some Store.idle
  else if kind =? "agent_error" then Some Store.error
  else None.

Definition frame_transition (fc : Frame * Clock) : option Store.AgentStatus :=
  match fc.1 with
  | Json (JsObject m) => transition_of (type m)
  | Json JsNull | Malformed _ => None
  end.

(** The state dictated by the last state-transitioning frame of a
    sequence, or the state before the sequence when it has none. *)
Definition dictated (frames : list (Frame * Clock)) (before : Store.AgentStatus)
  : Store.AgentStatus :=
  default before (last (omap frame_transition frames)).

(** The closed set of recognized kinds. *)
Definition recognized (kind : string) : bool :=
  (kind =? "pong") || (kind =? "agent_response_start")
  || (kind =? "agent_response_chunk") || (kind =? "agent_response_end")
  || (kind =? "code_execution") || (kind =? "code_result")
  || (kind =? "file_change") || (kind =? "agent_error") || (kind =? "error").

(** Pong frames, frames of an unrecognized kind, and frames that do not
    decode to an object. *)
Definition inert (f : Frame) : bool :=
  match f with
  | Malformed _ => true
  | Json JsNull => true
  | Json (JsObject m) => (type m =? "pong") || negb (recognized (type m))
  end.

(** ** Vocabulary of the further properties *)

(** The current session is one of the sessions of the list, and the
    current conversation is one of the conversations of the map. *)
Definition session_listed (st : Store.SessionState) : Prop :=
  ∀ c, Store.currentSession st = Some c → c ∈ Store.sessions st.

Definition conversation_listed (st : Store.SessionState) : Prop :=
  ∀ c, Store.currentConversation st = Some c →
       ∃ (k : string) cs, Store.conversations st !! k = Some cs ∧ c ∈ cs.

(** The patches with no key. *)
Definition no_session_patch : Store.SessionPatch :=
  Store.mkSessionPatch None None None None None None None None None None None None None None.

Definition no_conversation_patch : Store.ConversationPatch :=
  Store.mkConversationPatch None None None None None None None None None None.

Definition no_message_patch : Store.MessagePatch :=
  Store.mkMessagePatch None None None None None None None None None None.

(** A batch of [addMessage] calls, in call order. *)
Definition addMessages (ms : list Store.Message) (st : Store.SessionState)
  : Store.SessionState :=
  foldl (λ st m, Store.addMessage m st) st ms.

(** The messages of a batch that are addressed to a conversation. *)
Definition addressed_to (c : Store.Conversation) (ms : list Store.Message)
  : list Store.Message :=
  filter (λ m, Store.conversation_id m = Store.conv_id c) ms.

(** Every timer has one of the five delays of the backoff policy. *)
Definition delays_of_policy (w : World) : Prop :=
  Forall (λ t, delay t ∈ [1000; 2000; 4000; 8000; 16000]%Z) (timers w).

(** The hook has made no transport and no timer. *)
Definition untouched (w : World) : Prop :=
  sockets w = [] ∧ timers w = [] ∧ wsRef w = None.

(** The sets of a registry are without repetition and none is empty. *)
Definition well_formed (listeners : Listeners.Registry) : Prop :=
  ∀ (k : string) l, listeners !! k = Some l → NoDup l ∧ l ≠ [].

(** ** Concrete scenarios *)

Definition demo_clock : Clock :=
  {| uuid := "00000000-0000-4000-8000-000000000000";
     now_created := "2024-01-01T00:00:00.000Z";
     now_updated := "2024-01-01T00:00:00.001Z" |}.

(** A conversation of session ["s1"] with no message yet. *)
Definition demo_conversation (cid : string) : Store.Conversation :=
  {| Store.conv_id := cid; Store.session_id := "s1";
     Store.conv_title := "Refactor"; Store.conv_status := Store.ConvActive;
     Store.agent_type := "coder"; Store.agent_config := ∅;
     Store.conv_metadata := ∅; Store.messages := [];
     Store.conv_created_at := "2024-01-01T00:00:00.000Z";
     Store.conv_updated_at := "2024-01-01T00:00:00.000Z" |}.

(** A store that holds that conversation, also as the current one. *)
Definition demo_store (cid : string) : Store.SessionState :=
  {| Store.currentSession := None; Store.sessions := [];
     Store.currentConversation := Some (demo_conversation cid);
     Store.conversations := {[ "s1" := [demo_conversation cid] ]};
     Store.isLoading := false; Store.wsConnection := None;
     Store.agentStatus := Store.idle; Store.currentResponse := "" |}.

Definition demo_world (cid : string) : World :=
  set_session (demo_store cid) initial_world.

(** A frame [{type, content, conversation_id, full_response}]. *)
Definition demo_frame (kind : string) (text cid full : option string)
  : WebSocketMessage :=
  {| type := kind; content := text; session_id := None;
     conversation_id := cid; full_response := full; timestamp := None;
     success := false; action := None; filepath := None;
     error := None; message := None |}.

(** The chunks ["Hel"], ["lo, "], ["world"] after a start frame. *)
Definition demo_stream : list (Frame * Clock) :=
  object_frame <$>
    [ (demo_frame "agent_response_start" None None None, demo_clock);
      (demo_frame "agent_response_chunk" (Some "Hel") None None, demo_clock);
      (demo_frame "agent_response_chunk" (Some "lo, ") None None, demo_clock);
      (demo_frame "agent_response_chunk" (Some "world") None None, demo_clock) ].

(** A page served over https whose [WebSocket] constructor accepts every
    URL, and one whose constructor rejects every URL. *)
Definition demo_env : Env :=
  {| sessionId := Some "s1"; location_protocol := "https:";
     location_host := "replica.example"; ctor_throws := λ _, false |}.

Definition failing_env : Env :=
  {| sessionId := Some "s1"; location_protocol := "https:";
     location_host := "replica.example"; ctor_throws := λ _, true |}.

(** * Properties *)

(** ** The store: [addMessage] *)

Section StoreFacts.
Import Store.
Implicit Types (st : SessionState) (m : Message) (c : Conversation).

Lemma append_nil_r (s : string) : s +:+ "" = s.
Proof.
  induction s as [|a s IH]; [done|].
  change (String a (s +:+ "") = String a s). by rewrite IH.
Qed.

Lemma append_assoc (s1 s2 s3 : string) : (s1 +:+ s2) +:+ s3 = s1 +:+ s2 +:+ s3.
Proof.
  induction s1 as [|a s1 IH]; [done|].
  change (String a ((s1 +:+ s2) +:+ s3) = String a (s1 +:+ s2 +:+ s3)).
  by rewrite IH.
Qed.

Lemma with_messages_id c : with_messages c (messages c) = c.
Proof. by destruct c. Qed.

Lemma append_if_target_spec m c :
  append_if_target m c = with_messages c (messages_after m c).
Proof.
  unfold append_if_target, messages_after.
  case_decide; [done | by rewrite with_messages_id].
Qed.

Lemma append_if_target_miss m c :
  conv_id c ≠ conversation_id m → append_if_target m c = c.
Proof. unfold append_if_target. intros Hne. by case_decide. Qed.

Lemma messages_after_prefix m c : messages c `prefix_of` messages_after m c.
Proof.
  unfold messages_after. case_decide; [by apply prefix_app_r | done].
Qed.

Lemma addMessage_lookup st m (k : string) :
  conversations (addMessage m st) !! k
  = fmap (append_if_target m) <$> conversations st !! k.
Proof. unfold addMessage. simpl. by rewrite lookup_fmap. Qed.

Lemma fmap_append_if_target_miss m (cs : list Conversation) :
  (∀ c, c ∈ cs → conv_id c ≠ conversation_id m) →
  append_if_target m <$> cs = cs.
Proof.
  induction cs as [|c cs IH]; intros Hall; [done|].
  rewrite fmap_cons. f_equal.
  - apply append_if_target_miss, Hall. by left.
  - apply IH. intros c' Hin. apply Hall. by right.
Qed.

Lemma addMessage_unknown st m :
  unknown_conversation (conversation_id m) st →
  conversations (addMessage m st) = conversations st
  ∧ currentConversation (addMessage m st) = currentConversation st.
Proof.
  intros [Hmap Hcur]. split.
  - apply map_eq. intros k. rewrite addMessage_lookup.
    destruct (conversations st !! k) as [cs|] eqn:Hk; [|done].
    simpl. f_equal. apply fmap_append_if_target_miss. eauto.
  - unfold addMessage. simpl.
    destruct (currentConversation st) as [c|] eqn:Hc; [|done].
    simpl. f_equal. apply append_if_target_miss. eauto.
Qed.

End StoreFacts.

(** C9. For every store state and every message, [addMessage] keeps the
    keys of [conversations] and the length of every conversation list;
    the conversation at each position keeps all its fields but
    [messages], which gains the message at its end when the conversation's
    id equals the message's [conversation_id] and is unchanged otherwise,
    so that the messages stored before are a prefix of those stored after;
    the current conversation, when there is one, is treated in the same
    way; and [currentSession], [sessions], [isLoading], [wsConnection],
    [agentStatus] and [currentResponse] are unchanged. *)
Theorem addMessage_appends_and_frames (st : Store.SessionState) (m : Store.Message) :
  let st' := Store.addMessage m st in
  (∀ k : string,
     match Store.conversations st !! k, Store.conversations st' !! k with
     | Some cs, Some cs' =>
         length cs' = length cs
         ∧ ∀ (i : nat) c, cs !! i = Some c →
             ∃ c', cs' !! i = Some c'
                   ∧ c' = Store.with_messages c (Store.messages c')
                   ∧ Store.messages c'
                     = (if decide (Store.conv_id c = Store.conversation_id m)
                        then Store.messages c ++ [m] else Store.messages c)
                   ∧ Store.messages c `prefix_of` Store.messages c'
     | None, None => True
     | _, _ => False
     end)
  ∧ match Store.currentConversation st, Store.currentConversation st' with
    | Some c, Some c' =>
        c' = Store.with_messages c (Store.messages c')
        ∧ Store.messages c'
          = (if decide (Store.conv_id c = Store.conversation_id m)
             then Store.messages c ++ [m] else Store.messages c)
    | None, None => True
    | _, _ => False
    end
  ∧ Store.currentSession st' = Store.currentSession st
  ∧ Store.sessions st' = Store.sessions st
  ∧ Store.isLoading st' = Store.isLoading st
  ∧ Store.wsConnection st' = Store.wsConnection st
  ∧ Store.agentStatus st' = Store.agentStatus st
  ∧ Store.currentResponse st' = Store.currentResponse st.
Proof.
  intros st'. subst st'. split; [|split; [|done]].
  - intros k. rewrite addMessage_lookup.
    destruct (Store.conversations st !! k) as [cs|]; simpl; [|done].
    split; [by rewrite length_fmap|].
    intros i c Hi. exists (Store.append_if_target m c).
    rewrite list_lookup_fmap, Hi. split; [done|].
    rewrite append_if_target_spec. simpl.
    split; [done|]. split; [done|]. apply messages_after_prefix.
  - unfold Store.addMessage. simpl.
    destruct (Store.currentConversation st) as [c|]; simpl; [|done].
    by rewrite append_if_target_spec.
Qed.

(** ** The dispatcher: what [onmessage] does, frame by frame *)

Section Dispatcher.
Implicit Types (w : World) (m : WebSocketMessage) (clk : Clock).

(** The store after an ['agent_response_end'] frame. *)
Lemma onmessage_end m clk w :
  type m = "agent_response_end" →
  onmessage (Json (JsObject m)) clk w
  = (Normal tt,
     set_session
       (Store.clearCurrentResponse
          (match full_response m with
           | Some full =>
               if truthy full
               then Store.addMessage (assistant_message m full clk)
                      (Store.setAgentStatus Store.idle (session w))
               else Store.setAgentStatus Store.idle (session w)
           | None => Store.setAgentStatus Store.idle (session w)
           end)) w).
Proof.
  intros Hty. unfold onmessage, try_catch, handleMessage. simpl.
  unfold mbind, Js_bind, mret, Js_ret. simpl. rewrite Hty. simpl.
  destruct (full_response m) as [full|]; [destruct (truthy full)|]; reflexivity.
Qed.

Lemma onmessage_start m clk w :
  type m = "agent_response_start" →
  onmessage (Json (JsObject m)) clk w
  = (Normal tt,
     set_session
       (Store.clearCurrentResponse
          (Store.setAgentStatus Store.responding (session w))) w).
Proof.
  intros Hty. unfold onmessage, try_catch, handleMessage. simpl.
  unfold mbind, Js_bind, mret, Js_ret. simpl. rewrite Hty. reflexivity.
Qed.

Lemma onmessage_chunk m clk w :
  type m = "agent_response_chunk" →
  onmessage (Json (JsObject m)) clk w
  = (Normal tt,
     set_session (Store.addToCurrentResponse (chunk_text m) (session w)) w).
Proof.
  intros Hty. unfold onmessage, try_catch, handleMessage. simpl.
  unfold mbind, Js_bind, mret, Js_ret. simpl. rewrite Hty. simpl.
  unfold chunk_text.
  destruct (content m) as [c|]; simpl.
  - destruct c as [|a c]; simpl; [|reflexivity].
    unfold Store.addToCurrentResponse. rewrite append_nil_r.
    by destruct w as [? ? ? [] ? ? ? ?].
  - unfold Store.addToCurrentResponse. rewrite append_nil_r.
    by destruct w as [? ? ? [] ? ? ? ?].
Qed.

(** [onmessage] catches whatever decoding and dispatching throw. *)
Lemma onmessage_returns (f : Frame) clk w : returns (onmessage f clk) w = true.
Proof.
  unfold returns, onmessage, try_catch.
  by destruct ((JSON_parse f ≫= λ v, handleMessage v clk) w) as [[[]|e] w'].
Qed.

Lemma onmessage_inert (f : Frame) clk w :
  inert f = true → onmessage f clk w = (Normal tt, w).
Proof.
  destruct f as [data|[|m]]; simpl; [done..|].
  unfold recognized. intros Hin.
  unfold onmessage, try_catch, handleMessage. simpl.
  unfold mbind, Js_bind, mret, Js_ret. simpl.
  destruct (type m =? "pong"); [done|].
  repeat (match goal with
          | |- context [type m =? ?k] => destruct (type m =? k)
          end; simpl in *; try done).
Qed.

(** The agent activity state after one frame. *)
Lemma onmessage_agentStatus (fc : Frame * Clock) w :
  Store.agentStatus (session (exec (onmessage fc.1 fc.2) w))
  = default (Store.agentStatus (session w)) (frame_transition fc).
Proof.
  destruct fc as [[data|[|m]] clk]; unfold frame_transition; simpl; [done..|].
  unfold exec, onmessage, try_catch, handleMessage, transition_of. simpl.
  unfold mbind, Js_bind, mret, Js_ret. simpl.
  repeat (match goal with
          | |- context [type m =? ?k] =>
              let E := fresh "E" in
              destruct (type m =? k) eqn:E;
              [apply String.eqb_eq in E; rewrite ?E; simpl|]
          end).
  all: try reflexivity.
  - destruct (content m) as [c|]; [destruct (truthy c)|]; reflexivity.
  - destruct (full_response m) as [c|]; [destruct (truthy c)|]; reflexivity.
  - destruct (success m); reflexivity.
Qed.

Lemma receive_snoc (frames : list (Frame * Clock)) fc w :
  receive (frames ++ [fc]) w = exec (onmessage fc.1 fc.2) (receive frames w).
Proof. unfold receive. by rewrite foldl_snoc. Qed.

Lemma receive_cons (frames : list (Frame * Clock)) fc w :
  receive (fc :: frames) w = receive frames (exec (onmessage fc.1 fc.2) w).
Proof. done. Qed.

(** Chunk frames only grow the buffer. *)
Lemma receive_chunks (chunks : list (WebSocketMessage * Clock)) w :
  Forall (λ mc, type mc.1 = "agent_response_chunk") chunks →
  receive (object_frame <$> chunks) w
  = set_session
      (Store.addToCurrentResponse (concat_chunks chunks) (session w)) w.
Proof.
  intros Hall. revert w.
  induction Hall as [|[m clk] chunks Hty _ IH]; intros w.
  - simpl. unfold Store.addToCurrentResponse. rewrite append_nil_r.
    by destruct w as [? ? ? [] ? ? ? ?].
  - rewrite fmap_cons, receive_cons. simpl in *.
    unfold exec. rewrite (onmessage_chunk _ _ _ Hty). simpl.
    rewrite IH. unfold Store.addToCurrentResponse. simpl.
    by rewrite append_assoc.
Qed.

End Dispatcher.

(** ** The streaming accumulator *)

(** C1 (as the code has it). After an ['agent_response_start'] frame and
    any sequence of ['agent_response_chunk'] frames, the transient buffer
    holds the in-arrival-order concatenation of the chunks' content (the
    empty string when there is none); an ['agent_response_end'] frame that
    carries no full-response override (none, or the empty string) is then
    handled without raising; it finalizes no Message: [conversations] and
    the current conversation are what they were before the stream; the
    agent is idle and the buffer is empty afterwards. *)
Theorem end_without_override_commits_nothing
    (w : World) (start : WebSocketMessage) (clk0 : Clock)
    (chunks : list (WebSocketMessage * Clock))
    (fin : WebSocketMessage) (clk : Clock) :
  type start = "agent_response_start" →
  Forall (λ mc, type mc.1 = "agent_response_chunk") chunks →
  type fin = "agent_response_end" →
  truthy_opt (full_response fin) = false →
  let w1 := receive (object_frame <$> (start, clk0) :: chunks) w in
  let w2 := exec (onmessage (Json (JsObject fin)) clk) w1 in
  Store.currentResponse (session w1) = concat_chunks chunks
  ∧ returns (onmessage (Json (JsObject fin)) clk) w1 = true
  ∧ Store.conversations (session w2) = Store.conversations (session w)
  ∧ Store.currentConversation (session w2) = Store.currentConversation (session w)
  ∧ Store.agentStatus (session w2) = Store.idle
  ∧ Store.currentResponse (session w2) = "".
Proof.
  intros Hstart Hchunks Hfin Hnone w1 w2.
  assert (Hw1 : w1 = set_session
            (Store.setCurrentResponse (concat_chunks chunks)
               (Store.setAgentStatus Store.responding (session w))) w).
  { subst w1. rewrite fmap_cons, receive_cons. simpl.
    unfold exec. rewrite (onmessage_start _ _ _ Hstart). simpl.
    by rewrite (receive_chunks _ _ Hchunks). }
  subst w2. unfold exec. rewrite (onmessage_end _ _ _ Hfin).
  split; [by rewrite Hw1|].
  split; [apply onmessage_returns|].
  rewrite Hw1. unfold truthy_opt in Hnone.
  destruct (full_response fin) as [full|]; [rewrite Hnone|]; done.
Qed.

Lemma end_without_override_commits_nothing_witness :
  let w1 := receive demo_stream (demo_world "c1") in
  let fin := demo_frame "agent_response_end" None (Some "c1") None in
  let w2 := exec (onmessage (Json (JsObject fin)) demo_clock) w1 in
  Store.currentResponse (session w1) = "Hello, world"
  ∧ returns (onmessage (Json (JsObject fin)) demo_clock) w1 = true
  ∧ Store.conversations (session w2) = Store.conversations (demo_store "c1")
  ∧ Store.currentConversation (session w2) = Some (demo_conversation "c1")
  ∧ Store.agentStatus (session w2) = Store.idle
  ∧ Store.currentResponse (session w2) = "".
Proof.
  apply (end_without_override_commits_nothing (demo_world "c1")
           (demo_frame "agent_response_start" None None None) demo_clock
           [ (demo_frame "agent_response_chunk" (Some "Hel") None None, demo_clock);
             (demo_frame "agent_response_chunk" (Some "lo, ") None None, demo_clock);
             (demo_frame "agent_response_chunk" (Some "world") None None, demo_clock) ]
           (demo_frame "agent_response_end" None (Some "c1") None) demo_clock).
  - reflexivity.
  - repeat constructor.
  - reflexivity.
  - reflexivity.
Defined.

(** C1 refuted as stated: the chunks ["Hel"], ["lo, "], ["world"] arrive
    after a start frame, the buffer holds ["Hello, world"], and the end
    frame without override, addressed to the conversation ["c1"] that the
    store holds, leaves that conversation with no message at all. *)
Lemma streamed_chunks_are_not_committed :
  let w1 := receive demo_stream (demo_world "c1") in
  let fin := demo_frame "agent_response_end" None (Some "c1") None in
  let w2 := exec (onmessage (Json (JsObject fin)) demo_clock) w1 in
  Store.currentResponse (session w1) = "Hello, world"
  ∧ Store.conversations (session w2) !! "s1" = Some [demo_conversation "c1"]
  ∧ Store.currentConversation (session w2) = Some (demo_conversation "c1")
  ∧ Store.messages (demo_conversation "c1") = []
  ∧ ¬ (∃ cs c msg, Store.conversations (session w2) !! "s1" = Some cs
                   ∧ c ∈ cs ∧ msg ∈ Store.messages c
                   ∧ Store.content msg = "Hello, world").
Proof.
  intros w1 fin w2.
  assert (Hlook : Store.conversations (session w2) !! "s1"
                  = Some [demo_conversation "c1"]).
  { change (({[ "s1" := [demo_conversation "c1"] ]}
              : gmap string (list Store.Conversation)) !! "s1"
            = Some [demo_conversation "c1"]).
    apply lookup_singleton_eq. }
  split; [reflexivity|]. split; [exact Hlook|].
  split; [reflexivity|]. split; [reflexivity|].
  intros (cs & c & msg & Hcs & Hc & Hmsg & _).
  rewrite Hlook in Hcs. injection Hcs as <-.
  apply list_elem_of_singleton in Hc. subst c.
  simpl in Hmsg. by apply elem_of_nil in Hmsg.
Qed.

(** C7. When an ['agent_response_end'] frame carries a full-response
    override, the frame is handled without raising, and every Message it
    finalizes has the override as its content, exactly, whatever the
    buffer holds: each conversation of the store, and the current
    conversation, keeps its messages and gains at their end either nothing
    or Messages whose content is the override; when the override is not
    the empty string, a conversation the frame is addressed to gains
    exactly one, the assistant Message built from the frame. The agent is
    idle and the buffer is empty afterwards. (The code tests the override
    for truthiness: the empty string finalizes nothing.) *)
Theorem override_is_the_committed_content
    (w : World) (fin : WebSocketMessage) (clk : Clock) (full : string) :
  type fin = "agent_response_end" →
  full_response fin = Some full →
  let w' := exec (onmessage (Json (JsObject fin)) clk) w in
  let msg := assistant_message fin full clk in
  returns (onmessage (Json (JsObject fin)) clk) w = true
  ∧ Store.content msg = full
  ∧ Store.role msg = Store.assistant
  ∧ (∀ (k : string) cs (i : nat) c,
       Store.conversations (session w) !! k = Some cs →
       cs !! i = Some c →
       ∃ cs' c' new,
         Store.conversations (session w') !! k = Some cs'
         ∧ cs' !! i = Some c'
         ∧ Store.messages c' = Store.messages c ++ new
         ∧ Forall (λ x, Store.content x = full) new
         ∧ (truthy full = true →
            Store.conv_id c = Store.conversation_id msg → new = [msg]))
  ∧ (∀ c, Store.currentConversation (session w) = Some c →
       ∃ c' new,
         Store.currentConversation (session w') = Some c'
         ∧ Store.messages c' = Store.messages c ++ new
         ∧ Forall (λ x, Store.content x = full) new
         ∧ (truthy full = true →
            Store.conv_id c = Store.conversation_id msg → new = [msg]))
  ∧ Store.agentStatus (session w') = Store.idle
  ∧ Store.currentResponse (session w') = "".
Proof.
  intros Hfin Hfull w' msg.
  split; [apply onmessage_returns|].
  subst w'. unfold exec. rewrite (onmessage_end _ _ _ Hfin), Hfull.
  do 2 (split; [done|]).
  destruct (truthy full) eqn:Htruthy; simpl.
  - split; [|split; [|done]].
    + intros k cs i c Hk Hi.
      exists (Store.append_if_target msg <$> cs), (Store.append_if_target msg c),
             (if decide (Store.conv_id c = Store.conversation_id msg) then [msg] else []).
      rewrite lookup_fmap, Hk, list_lookup_fmap, Hi. do 2 (split; [done|]).
      unfold Store.append_if_target. case_decide; simpl.
      * split; [done|]. split; [by constructor | done].
      * split; [by rewrite app_nil_r|]. split; [by constructor | done].
    + intros c Hc.
      exists (Store.append_if_target msg c),
             (if decide (Store.conv_id c = Store.conversation_id msg) then [msg] else []).
      rewrite Hc. split; [done|].
      unfold Store.append_if_target. case_decide; simpl.
      * split; [done|]. split; [by constructor | done].
      * split; [by rewrite app_nil_r|]. split; [by constructor | done].
  - split; [|split; [|done]].
    + intros k cs i c Hk Hi. exists cs, c, [].
      rewrite app_nil_r. by repeat split.
    + intros c Hc. exists c, []. rewrite app_nil_r. by repeat split.
Qed.

Lemma override_is_the_committed_content_witness :
  let w := receive demo_stream (demo_world "c1") in
  let fin := demo_frame "agent_response_end" None (Some "c1") (Some "Goodbye") in
  let w' := exec (onmessage (Json (JsObject fin)) demo_clock) w in
  Store.currentResponse (session w) = "Hello, world"
  ∧ ∃ c', Store.currentConversation (session w') = Some c'
          ∧ Store.content <$> Store.messages c' = ["Goodbye"].
Proof.
  intros w fin w'. split; [reflexivity|].
  destruct (override_is_the_committed_content w fin demo_clock "Goodbye")
    as (_ & _ & _ & _ & Hcur & _); [reflexivity..|].
  destruct (Hcur (demo_conversation "c1")) as (c' & new & Hc' & Hmsgs & _ & Hone);
    [reflexivity|].
  exists c'. split; [exact Hc'|].
  rewrite Hmsgs, Hone; reflexivity.
Defined.

(** The edge of the truthiness test: an end frame whose override is the
    empty string, addressed to the conversation ["c1"] that the store
    holds, finalizes no Message. *)
Example empty_override_commits_nothing :
  let w := receive demo_stream (demo_world "c1") in
  let fin := demo_frame "agent_response_end" None (Some "c1") (Some "") in
  let w' := exec (onmessage (Json (JsObject fin)) demo_clock) w in
  full_response fin = Some ""
  ∧ Store.conversations (session w') !! "s1" = Some [demo_conversation "c1"]
  ∧ Store.currentConversation (session w') = Some (demo_conversation "c1")
  ∧ Store.messages (demo_conversation "c1") = [].
Proof.
  intros w fin w'. split; [reflexivity|].
  split; [|split; reflexivity].
  change (({[ "s1" := [demo_conversation "c1"] ]}
            : gmap string (list Store.Conversation)) !! "s1"
          = Some [demo_conversation "c1"]).
  apply lookup_singleton_eq.
Qed.

(** C10 (as the code has it). The Message of an ['agent_response_end']
    frame is addressed to the frame's [conversation_id], or to the empty
    string when that is absent or empty. If a frame that carries a
    full-response payload is addressed to an id that no conversation held
    by the store has (the current conversation included), the Message
    built from it has that id, [addMessage] of it leaves [conversations]
    and the current conversation unchanged, and so does the frame, which
    is handled without raising and without a notice. *)
Theorem unroutable_reply_is_dropped
    (w : World) (fin : WebSocketMessage) (clk : Clock) (full : string) :
  type fin = "agent_response_end" →
  full_response fin = Some full →
  unknown_conversation (or_default (conversation_id fin) "") (session w) →
  let msg := assistant_message fin full clk in
  let w' := exec (onmessage (Json (JsObject fin)) clk) w in
  Store.conversation_id msg = or_default (conversation_id fin) ""
  ∧ Store.conversations (Store.addMessage msg (session w))
    = Store.conversations (session w)
  ∧ Store.currentConversation (Store.addMessage msg (session w))
    = Store.currentConversation (session w)
  ∧ Store.conversations (session w') = Store.conversations (session w)
  ∧ Store.currentConversation (session w') = Store.currentConversation (session w)
  ∧ returns (onmessage (Json (JsObject fin)) clk) w = true
  ∧ toasts w' = toasts w.
Proof.
  intros Hfin Hfull Hunknown msg w'.
  destruct (addMessage_unknown (session w) msg Hunknown) as [Hconv Hcur].
  split; [done|]. split; [exact Hconv|]. split; [exact Hcur|].
  subst w'. unfold exec. rewrite (onmessage_end _ _ _ Hfin), Hfull.
  split; [|split; [|split; [apply onmessage_returns|done]]].
  - destruct (truthy full); [exact Hconv | done].
  - destruct (truthy full); [exact Hcur | done].
Qed.

Lemma unroutable_reply_is_dropped_witness :
  let fin := demo_frame "agent_response_end" None (Some "c2") (Some "orphan") in
  let w' := exec (onmessage (Json (JsObject fin)) demo_clock) (demo_world "c1") in
  Store.conversations (session w') = Store.conversations (demo_store "c1")
  ∧ Store.currentConversation (session w') = Some (demo_conversation "c1").
Proof.
  intros fin w'.
  destruct (unroutable_reply_is_dropped (demo_world "c1") fin demo_clock "orphan")
    as (_ & _ & _ & Hconv & Hcur & _); [reflexivity..| |by split].
  split.
  - intros k cs c Hk Hc.
    destruct (decide (k = "s1")) as [->|Hne].
    + change (({[ "s1" := [demo_conversation "c1"] ]}
                : gmap string (list Store.Conversation)) !! "s1" = Some cs) in Hk.
      rewrite lookup_singleton_eq in Hk. injection Hk as <-.
      apply list_elem_of_singleton in Hc. by subst c.
    + change (({[ "s1" := [demo_conversation "c1"] ]}
                : gmap string (list Store.Conversation)) !! k = Some cs) in Hk.
      by rewrite lookup_singleton_ne in Hk.
  - intros c Hc. injection Hc as <-. done.
Defined.

(** C10 refuted as stated: the frame has a payload and no
    [conversation_id], the store holds a conversation whose id is the
    empty string, and the Message is appended to that conversation. *)
Lemma reply_without_id_reaches_the_empty_id :
  let fin := demo_frame "agent_response_end" None None (Some "orphan") in
  let w' := exec (onmessage (Json (JsObject fin)) demo_clock) (demo_world "") in
  conversation_id fin = None
  ∧ Store.conversations (session (demo_world "")) !! "s1"
    = Some [demo_conversation ""]
  ∧ Store.conversations (session w') !! "s1"
    = Some [Store.with_messages (demo_conversation "")
              [assistant_message fin "orphan" demo_clock]]
  ∧ Store.conversations (session w') ≠ Store.conversations (session (demo_world "")).
Proof.
  intros fin w'.
  assert (Hbefore : Store.conversations (session (demo_world "")) !! "s1"
                    = Some [demo_conversation ""]).
  { change (({[ "s1" := [demo_conversation ""] ]}
              : gmap string (list Store.Conversation)) !! "s1"
            = Some [demo_conversation ""]).
    apply lookup_singleton_eq. }
  assert (Hafter : Store.conversations (session w') !! "s1"
                   = Some [Store.with_messages (demo_conversation "")
                             [assistant_message fin "orphan" demo_clock]]).
  { change (Store.conversations
              (Store.addMessage (assistant_message fin "orphan" demo_clock)
                 (session (demo_world ""))) !! "s1"
            = Some [Store.with_messages (demo_conversation "")
                      [assistant_message fin "orphan" demo_clock]]).
    by rewrite addMessage_lookup, Hbefore. }
  split; [reflexivity|]. split; [exact Hbefore|]. split; [exact Hafter|].
  intros Heq. rewrite Heq, Hbefore in Hafter. discriminate Hafter.
Qed.

(** ** The dispatcher and the agent activity state *)

(** C6. For every sequence of inbound frames handled in arrival order,
    the agent activity state afterwards is the state dictated by the last
    state-transitioning frame of the sequence (the state before the
    sequence when it has none); a pong frame, a frame of an unrecognized
    kind and a frame that does not decode leave the whole world, the store
    and the agent activity state included, unchanged; and no frame makes
    [onmessage] throw. *)
Theorem agent_state_follows_last_transition
    (frames : list (Frame * Clock)) (w : World) :
  Store.agentStatus (session (receive frames w))
  = dictated frames (Store.agentStatus (session w))
  ∧ (∀ (f : Frame) (clk : Clock) (w0 : World),
       inert f = true → exec (onmessage f clk) w0 = w0)
  ∧ (∀ (f : Frame) (clk : Clock) (w0 : World),
       returns (onmessage f clk) w0 = true).
Proof.
  split; [|split].
  - induction frames as [|fc frames IH] using rev_ind; [done|].
    rewrite receive_snoc, onmessage_agentStatus, IH.
    unfold dictated. rewrite omap_app. simpl.
    destruct (frame_transition fc) as [status|]; simpl.
    + by rewrite last_snoc.
    + by rewrite app_nil_r.
  - intros f clk w0 Hinert. unfold exec. by rewrite onmessage_inert.
  - intros f clk w0. apply onmessage_returns.
Qed.

Lemma agent_state_follows_last_transition_witness :
  let frames :=
    [ (Json (JsObject (demo_frame "code_execution" None None None)), demo_clock);
      (Json (JsObject (demo_frame "agent_response_start" None None None)), demo_clock);
      (Json (JsObject (demo_frame "pong" None None None)), demo_clock);
      (Json (JsObject (demo_frame "telemetry" None None None)), demo_clock);
      (Json JsNull, demo_clock);
      (Malformed "{", demo_clock) ] in
  Store.agentStatus (session (receive frames initial_world)) = Store.responding
  ∧ exec (onmessage (Json (JsObject (demo_frame "telemetry" None None None)))
            demo_clock) initial_world = initial_world.
Proof.
  intros frames.
  destruct (agent_state_follows_last_transition frames initial_world)
    as (Hstatus & Hinert & _).
  split; [exact Hstatus|].
  apply Hinert. reflexivity.
Defined.

(** ** The connection manager *)

Section ConnectionManager.
Implicit Types (env : Env) (w : World) (code : Z).

(** The world after the three store updates that open [onclose]. *)
Lemma onclose_eq code w :
  onclose code w
  = let w1 := set_session
                (Store.setAgentStatus Store.idle
                   (Store.setWsConnection None (session w)))
                (set_app (App.setConnectionStatus false (app w)) w) in
    (Normal tt,
     if negb (code =? 1000)%Z && (reconnectAttemptsRef w <? maxReconnectAttempts)%nat
     then set_reconnectTimeoutRef (Some (length (timers w)))
            (set_timers (timers w ++ [mkTimer (backoff_delay (reconnectAttemptsRef w)) true]) w1)
     else w1).
Proof.
  unfold onclose, mbind, Js_bind, mret, Js_ret. simpl.
  by destruct (negb (code =? 1000)%Z && (reconnectAttemptsRef w <? maxReconnectAttempts)%nat).
Qed.

Lemma connect_created env w :
  truthy_opt (sessionId env) = true →
  ctor_throws env (wsUrl env) = false →
  connect env w
  = (Normal tt,
     set_wsRef (Some (length (sockets w)))
       (set_sockets (sockets w ++ [mkWebSocket (wsUrl env) CONNECTING [] None]) w)).
Proof.
  intros Hsid Hctor. unfold connect, try_catch, new_WebSocket.
  rewrite Hsid, Hctor. reflexivity.
Qed.

Lemma connect_failed env w :
  truthy_opt (sessionId env) = true →
  ctor_throws env (wsUrl env) = true →
  connect env w = (Normal tt, set_app (App.setConnectionStatus false (app w)) w).
Proof.
  intros Hsid Hctor. unfold connect, try_catch, new_WebSocket.
  rewrite Hsid, Hctor. reflexivity.
Qed.

Lemma connect_returns env w : returns (connect env) w = true.
Proof.
  unfold returns, connect, try_catch.
  destruct (truthy_opt (sessionId env)); simpl; [|done].
  by destruct ((new_WebSocket env (wsUrl env) ≫= λ ws, modify (set_wsRef (Some ws))) w)
    as [[[]|e] w'].
Qed.

Lemma connect_attempts env w :
  reconnectAttemptsRef (exec (connect env) w) = reconnectAttemptsRef w.
Proof.
  unfold exec, connect, try_catch, new_WebSocket.
  destruct (truthy_opt (sessionId env)); simpl; [|done].
  by destruct (ctor_throws env (wsUrl env)).
Qed.

Lemma disconnect_eq w :
  disconnect w
  = let w1 := match reconnectTimeoutRef w with
              | Some h => expire h w
              | None => w
              end in
    let w2 := match wsRef w with
              | Some i => begin_close i 1000 "Component unmounting" w1
              | None => w1
              end in
    (Normal tt,
     set_session (Store.setWsConnection None (session w2))
       (set_app (App.setConnectionStatus false (app w2)) w2)).
Proof.
  unfold disconnect, clearTimeout, ws_close, mbind, Js_bind, mret, Js_ret.
  destruct w as [ss ts tos se ap [i|] [h|] n]; reflexivity.
Qed.

Lemma live_at_begin_close (i j : nat) code (reason : string) w :
  live_at (begin_close i code reason w) j
  = if decide (i = j) then false else live_at w j.
Proof.
  unfold live_at, begin_close.
  destruct (sockets w !! i) as [s|] eqn:Hi.
  - destruct (is_live (readyState s)) eqn:Hlive; simpl.
    + case_decide as Hij.
      * subst j. rewrite list_lookup_insert_eq; [done|].
        apply lookup_lt_is_Some. by exists s.
      * by rewrite list_lookup_insert_ne.
    + case_decide as Hij; [|done]. subst j. by rewrite Hi, Hlive.
  - case_decide as Hij; [|done]. subst j. by rewrite Hi.
Qed.

Lemma live_at_snoc (s : WebSocket) w (j : nat) :
  live_at (set_sockets (sockets w ++ [s]) w) j
  = if decide (j = length (sockets w)) then is_live (readyState s) else live_at w j.
Proof.
  unfold live_at. simpl. case_decide as Hj.
  - subst j. by rewrite list_lookup_middle.
  - destruct (decide (j < length (sockets w))) as [Hlt|Hge].
    + by rewrite lookup_app_l.
    + rewrite !lookup_ge_None_2; [done|lia|].
      rewrite length_app. simpl. lia.
Qed.

Lemma onopen_attempts (now : Z) w : reconnectAttemptsRef (exec (onopen now) w) = 0.
Proof.
  unfold exec, onopen, ws_send, mbind, Js_bind, mret, Js_ret.
  destruct w as [ss ts tos se ap [i|] rt n]; simpl; [|done].
  by destruct (ss !! i) as [[u [] o c]|].
Qed.

(** A pending timer that fires runs the reconnect callback. *)
Lemma step_timer env w (h : nat) :
  pending_at w h = true →
  step env w (TimerFired h)
  = exec (connect env)
      (set_reconnectAttemptsRef (S (reconnectAttemptsRef w)) (expire h w)).
Proof.
  intros Hpending. unfold step. simpl. rewrite Hpending.
  unfold exec, reconnect_callback, mbind, Js_bind, modify. reflexivity.
Qed.

End ConnectionManager.

(** C8. Whatever the closure code, graceful or not, the [onclose] handler
    returns, and afterwards the connection status is disconnected, the
    store holds no transport and the agent activity state is idle; the
    same holds after the browser has delivered the close event of any
    socket. *)
Theorem closure_disconnects_and_idles (env : Env) (w : World) (i : nat) (code : Z) :
  let w' := exec (onclose code) w in
  let w'' := exec (dispatch env (Closed i code)) w in
  returns (onclose code) w = true
  ∧ App.isConnected (app w') = false
  ∧ Store.wsConnection (session w') = None
  ∧ Store.agentStatus (session w') = Store.idle
  ∧ App.isConnected (app w'') = false
  ∧ Store.wsConnection (session w'') = None
  ∧ Store.agentStatus (session w'') = Store.idle.
Proof.
  unfold dispatch, exec, returns, mbind, Js_bind, modify.
  rewrite !onclose_eq. simpl.
  destruct (negb (code =? 1000)%Z);
    destruct (reconnectAttemptsRef w <? maxReconnectAttempts)%nat; done.
Qed.

(** C3. On a closure whose code is not 1000, while the attempt counter
    [n] is below 5, [onclose] schedules one timer, of delay
    [min (1000 * 2^n) 30000] milliseconds, and records its handle; the
    counter is incremented, by one, when that timer fires, just before
    [connect] is called again. When the counter has reached 5, a closure
    schedules nothing and leaves the session disconnected. The [onopen]
    handler of a successful connect resets the counter to 0. *)
Theorem reconnect_backoff (env : Env) (w : World) (code now : Z) :
  let n := reconnectAttemptsRef w in
  let h := length (timers w) in
  let w' := exec (onclose code) w in
  (code ≠ 1000%Z → n < 5 →
     timers w' = timers w ++ [mkTimer (Z.min (1000 * 2 ^ Z.of_nat n) 30000) true]
     ∧ reconnectTimeoutRef w' = Some h
     ∧ pending_at w' h = true
     ∧ reconnectAttemptsRef w' = n
     ∧ step env w' (TimerFired h)
       = exec (connect env) (set_reconnectAttemptsRef (S n) (expire h w'))
     ∧ reconnectAttemptsRef (step env w' (TimerFired h)) = S n)
  ∧ ((5 ≤ n)%nat →
     timers w' = timers w
     ∧ reconnectTimeoutRef w' = reconnectTimeoutRef w
     ∧ App.isConnected (app w') = false
     ∧ Store.wsConnection (session w') = None)
  ∧ reconnectAttemptsRef (exec (onopen now) w) = 0.
Proof.
  intros n h w'. split; [|split; [|apply onopen_attempts]].
  - intros Hcode Hn.
    assert (Hw' : w' = set_reconnectTimeoutRef (Some h)
              (set_timers (timers w ++ [mkTimer (backoff_delay n) true])
                 (set_session
                    (Store.setAgentStatus Store.idle
                       (Store.setWsConnection None (session w)))
                    (set_app (App.setConnectionStatus false (app w)) w)))).
    { subst w'. unfold exec. rewrite onclose_eq. simpl.
      apply Z.eqb_neq in Hcode. rewrite Hcode.
      apply Nat.ltb_lt in Hn. unfold maxReconnectAttempts. fold n. by rewrite Hn. }
    assert (Hpending : pending_at w' h = true).
    { rewrite Hw'. unfold pending_at. simpl. by rewrite list_lookup_middle. }
    assert (Hsame : reconnectAttemptsRef w' = n) by (by rewrite Hw').
    split; [by rewrite Hw'|]. split; [by rewrite Hw'|].
    split; [exact Hpending|]. split; [exact Hsame|].
    rewrite (step_timer _ _ _ Hpending), connect_attempts, Hsame. done.
  - intros Hn. subst w'. unfold exec. rewrite onclose_eq. simpl.
    assert (Hge : (reconnectAttemptsRef w <? maxReconnectAttempts)%nat = false).
    { apply Nat.ltb_ge. exact Hn. }
    rewrite Hge, andb_false_r. done.
Qed.

Lemma reconnect_backoff_witness :
  let w := run demo_env
             [Connect; Closed 0 1006; TimerFired 0; Closed 1 1006; TimerFired 1]
             initial_world in
  let w' := exec (onclose 1006) w in
  reconnectAttemptsRef w = 2
  ∧ timers w' = timers w ++ [mkTimer 4000 true]
  ∧ reconnectAttemptsRef (step demo_env w' (TimerFired 2)) = 3.
Proof.
  intros w w'. split; [reflexivity|].
  destruct (reconnect_backoff demo_env w 1006 0) as [Hsched _].
  destruct Hsched as (Htimers & _ & _ & _ & _ & Hfired).
  - discriminate.
  - change (2 < 5). lia.
  - split; [exact Htimers | exact Hfired].
Defined.

(** The whole policy on one run: the first connection and five reconnect
    attempts all fail with code 1006; the five timers had the delays
    1000, 2000, 4000, 8000 and 16000; the last closure schedules nothing,
    so no timer is pending and the session is disconnected. *)
Example five_failures_then_silence :
  let w := run demo_env
             [Connect; Closed 0 1006; TimerFired 0; Closed 1 1006; TimerFired 1;
              Closed 2 1006; TimerFired 2; Closed 3 1006; TimerFired 3;
              Closed 4 1006; TimerFired 4; Closed 5 1006]
             initial_world in
  timers w = [mkTimer 1000 false; mkTimer 2000 false; mkTimer 4000 false;
              mkTimer 8000 false; mkTimer 16000 false]
  ∧ reconnectAttemptsRef w = 5
  ∧ readyState <$> sockets w = [CLOSED; CLOSED; CLOSED; CLOSED; CLOSED; CLOSED]
  ∧ App.isConnected (app w) = false.
Proof. repeat split; vm_compute; reflexivity. Qed.

(** C4 (as the code has it). [connect] never raises to its caller. When
    the construction of the transport throws, the error is caught and the
    connection status is set to disconnected; nothing else changes: no
    reconnect is scheduled, and the timers, the refs, the sockets and the
    session store are what they were. *)
Theorem construction_failure_is_caught (env : Env) (w : World) :
  returns (connect env) w = true
  ∧ (truthy_opt (sessionId env) = true →
     ctor_throws env (wsUrl env) = true →
     exec (connect env) w = set_app (App.setConnectionStatus false (app w)) w
     ∧ App.isConnected (app (exec (connect env) w)) = false
     ∧ timers (exec (connect env) w) = timers w
     ∧ reconnectTimeoutRef (exec (connect env) w) = reconnectTimeoutRef w
     ∧ reconnectAttemptsRef (exec (connect env) w) = reconnectAttemptsRef w).
Proof.
  split; [apply connect_returns|].
  intros Hsid Hctor. unfold exec. by rewrite connect_failed.
Qed.

Lemma construction_failure_is_caught_witness :
  returns (connect failing_env) initial_world = true
  ∧ exec (connect failing_env) initial_world
    = set_app (App.setConnectionStatus false App.initial) initial_world.
Proof.
  destruct (construction_failure_is_caught failing_env initial_world)
    as [Hret Hfail].
  split; [exact Hret|].
  destruct Hfail as [Heq _]; [reflexivity..|exact Heq].
Defined.

(** C4 refuted as stated: on the first connect of a session the
    constructor throws; no timer exists afterwards and no handle is
    recorded, whereas a non-graceful closure in the same world schedules
    the reconnect of 1000 ms. *)
Lemma construction_failure_schedules_no_reconnect :
  let failed := exec (connect failing_env) initial_world in
  let closed := exec (onclose 1006) initial_world in
  ctor_throws failing_env (wsUrl failing_env) = true
  ∧ timers failed = []
  ∧ reconnectTimeoutRef failed = None
  ∧ timers closed = [mkTimer 1000 true]
  ∧ reconnectTimeoutRef closed = Some 0
  ∧ failed ≠ closed.
Proof.
  intros failed closed. do 5 (split; [reflexivity|]).
  intros Heq. apply (f_equal timers) in Heq. discriminate Heq.
Qed.




(** C2 (as the code has it). [connect] tears nothing down: when the
    session id is set and the constructor accepts the URL, it adds one
    CONNECTING transport for the session, points the hook's handle to it
    and leaves every earlier transport as it was, still live if it was
    live. Exactly one transport is live afterwards when none was live
    before; in particular when [connect] follows [disconnect], as in the
    session effect, in a world whose only live transport is the one the
    hook refers to. *)
Theorem connect_adds_a_transport (env : Env) (w : World) :
  truthy_opt (sessionId env) = true →
  ctor_throws env (wsUrl env) = false →
  let j := length (sockets w) in
  let w' := exec (connect env) w in
  sockets w' = sockets w ++ [mkWebSocket (wsUrl env) CONNECTING [] None]
  ∧ wsRef w' = Some j
  ∧ live_at w' j = true
  ∧ (∀ i : nat, i ≠ j → live_at w' i = live_at w i)
  ∧ ((∀ i : nat, live_at w i = false) →
     ∀ i : nat, live_at w' i = true ↔ i = j)
  ∧ ((∀ i : nat, live_at w i = true → wsRef w = Some i) →
     ∀ i : nat, live_at (exec (connect env) (exec disconnect w)) i = true ↔ i = j).
Proof.
  intros Hsid Hctor j w'.
  assert (Hlive : ∀ w0 i,
            live_at (exec (connect env) w0) i
            = if decide (i = length (sockets w0)) then true else live_at w0 i).
  { intros w0 i. unfold exec. rewrite (connect_created _ _ Hsid Hctor). simpl.
    change (live_at (set_wsRef (Some (length (sockets w0)))
                       (set_sockets (sockets w0 ++ [mkWebSocket (wsUrl env) CONNECTING [] None]) w0)) i)
      with (live_at (set_sockets
                       (sockets w0 ++ [mkWebSocket (wsUrl env) CONNECTING [] None]) w0) i).
    apply live_at_snoc. }
  split; [subst w'; unfold exec; by rewrite (connect_created _ _ Hsid Hctor)|].
  split; [subst w'; unfold exec; by rewrite (connect_created _ _ Hsid Hctor)|].
  split; [subst w'; by rewrite Hlive, decide_True|].
  split; [intros i Hi; subst w'; by rewrite Hlive, decide_False|].
  split.
  - intros Hnone i. subst w'. rewrite Hlive. fold j.
    case_decide; [done|]. rewrite Hnone. split; [done | by intros].
  - intros Htracked i. rewrite Hlive.
    assert (Hlen : length (sockets (exec disconnect w)) = j).
    { unfold exec. rewrite disconnect_eq.
      destruct w as [ss ts tos se ap [k|] [h|] n]; simpl; try done;
        unfold begin_close; simpl;
        destruct (ss !! k) as [[u [] o c]|]; simpl; try done;
        apply length_insert. }
    rewrite Hlen. case_decide; [done|].
    assert (Hdead : live_at (exec disconnect w) i = false).
    { unfold exec. rewrite disconnect_eq.
      destruct (live_at w i) eqn:Hwas.
      - specialize (Htracked i Hwas).
        destruct w as [ss ts tos se ap wr [h|] n]; simpl in *; subst wr;
          match goal with
          | |- live_at (set_session _ (set_app _ ?x)) _ = _ =>
              change (live_at x i = false)
          end;
          rewrite live_at_begin_close; by rewrite decide_True.
      - destruct w as [ss ts tos se ap [k|] [h|] n]; simpl in *;
          match goal with
          | |- live_at (set_session _ (set_app _ ?x)) _ = _ =>
              change (live_at x i = false)
          end;
          rewrite ?live_at_begin_close; repeat case_decide; done. }
    rewrite Hdead. split; [done | by intros].
Qed.

Lemma connect_adds_a_transport_witness :
  let w := run demo_env [Connect; Opened 0 7] initial_world in
  let w' := exec (connect demo_env) (exec disconnect w) in
  live_at w 0 = true
  ∧ live_at w' 0 = false
  ∧ live_at w' 1 = true
  ∧ wsRef (exec (connect demo_env) w) = Some 1.
Proof.
  intros w w'.
  destruct (connect_adds_a_transport demo_env w) as (_ & Href & _ & _ & _ & Hcycle);
    [reflexivity..|].
  split; [reflexivity|].
  assert (Htracked : ∀ i : nat, live_at w i = true → wsRef w = Some i).
  { intros [|[|i]] Hi; [reflexivity | discriminate Hi | discriminate Hi]. }
  split; [|split; [|exact Href]].
  - destruct (live_at w' 0) eqn:Hl; [|done].
    apply (Hcycle Htracked) in Hl. discriminate Hl.
  - by apply (Hcycle Htracked).
Defined.

(** C2 refuted as stated: [connect] is called twice for the session ["s1"]
    and both transports open. Both are open afterwards, the first was never
    asked to close, and a chunk that the server delivers on each transport
    of the session is appended to the buffer twice. *)
Lemma second_connect_keeps_the_first_transport :
  let w := run demo_env [Connect; Opened 0 7; Connect; Opened 1 8] initial_world in
  let chunk := Json (JsObject (demo_frame "agent_response_chunk" (Some "Hi") None None)) in
  let w' := run demo_env [Received 0 chunk demo_clock; Received 1 chunk demo_clock] w in
  url <$> sockets w = ["wss://replica.example/ws/s1"; "wss://replica.example/ws/s1"]
  ∧ readyState <$> sockets w = [OPEN; OPEN]
  ∧ closeCall <$> sockets w = [None; None]
  ∧ wsRef w = Some 1
  ∧ Store.currentResponse (session w') = "HiHi".
Proof. repeat split; vm_compute; reflexivity. Qed.

(** * Further properties of the store *)

Section SessionList.
Import Store.
Implicit Types (st : SessionState) (s : Session).

Lemma filter_idem {A} (P : A → Prop) `{∀ x, Decision (P x)} (l : list A) :
  filter P (filter P l) = filter P l.
Proof.
  induction l as [|x l IH]; [done|].
  rewrite filter_cons. case_decide as HP.
  - rewrite filter_cons, decide_True by done. by f_equal.
  - done.
Qed.

Lemma filter_all {A} (P : A → Prop) `{∀ x, Decision (P x)} (l : list A) :
  (∀ x, x ∈ l → P x) → filter P l = l.
Proof.
  induction l as [|x l IH]; intros Hall; [done|].
  rewrite filter_cons, decide_True by (apply Hall; by left).
  f_equal. apply IH. intros y Hy. apply Hall. by right.
Qed.

Lemma merge_session_none s : merge_session s no_session_patch = s.
Proof. by destruct s. Qed.

Lemma update_if_session_none (sessionId : string) s :
  update_if_session sessionId no_session_patch s = s.
Proof. unfold update_if_session. case_decide; [apply merge_session_none | done]. Qed.

Lemma update_if_session_id (sessionId : string) (u : SessionPatch) s :
  patch_sess_id u = None → sess_id (update_if_session sessionId u s) = sess_id s.
Proof.
  intros Hid. unfold update_if_session. case_decide; [|done].
  simpl. by rewrite Hid.
Qed.

End SessionList.

(** X1. [removeSession] keeps exactly the sessions whose id differs from
    the given one, in their order; the current session is kept when its
    id differs and cleared otherwise; a second call changes nothing; and
    the conversations stored for the removed session and the current
    conversation are left in the store. *)
Theorem removeSession_removes_the_session_only
    (st : Store.SessionState) (sessionId : string) :
  let st' := Store.removeSession sessionId st in
  (∀ s, s ∈ Store.sessions st' ↔ s ∈ Store.sessions st ∧ Store.sess_id s ≠ sessionId)
  ∧ Store.sessions st' `sublist_of` Store.sessions st
  ∧ (∀ c, Store.currentSession st' = Some c ↔
          Store.currentSession st = Some c ∧ Store.sess_id c ≠ sessionId)
  ∧ Store.removeSession sessionId st' = st'
  ∧ Store.conversations st' = Store.conversations st
  ∧ Store.currentConversation st' = Store.currentConversation st.
Proof.
  intros st'. subst st'. unfold Store.removeSession. simpl.
  split; [|split; [|split; [|split; [|done]]]].
  - intros s. by rewrite list_elem_of_filter, (comm and).
  - apply sublist_filter.
  - intros c. destruct (Store.currentSession st) as [c0|];
      [|split; [done | by intros [? _]]].
    case_decide as Hc; split.
    + done.
    + intros [[= ->] Hne]. by destruct Hne.
    + by intros [= ->].
    + by intros [? _].
  - unfold Store.setCurrentSession, Store.setSessions. simpl.
    rewrite filter_idem. f_equal.
    destruct (Store.currentSession st) as [c0|]; [|done].
    case_decide as Hc; [done|]. by rewrite decide_False.
Qed.

(** X2. Adding a session whose id is the id of no stored session and not
    the id of the current session, and then removing that id, gives the
    store back as it was. *)
Theorem addSession_then_removeSession (st : Store.SessionState) (s : Store.Session) :
  (∀ s', s' ∈ Store.sessions st → Store.sess_id s' ≠ Store.sess_id s) →
  (∀ c, Store.currentSession st = Some c → Store.sess_id c ≠ Store.sess_id s) →
  Store.removeSession (Store.sess_id s) (Store.addSession s st) = st.
Proof.
  intros Hfresh Hcur. destruct st as [cur ss cc cs ld ws ag rs]. simpl in *.
  unfold Store.removeSession, Store.addSession, Store.setCurrentSession,
    Store.setSessions. simpl.
  rewrite filter_cons, decide_False by (intros Hne; by apply Hne).
  rewrite (filter_all _ _ Hfresh). f_equal.
  destruct cur as [c|]; [|done].
  rewrite decide_False; [done|]. by apply Hcur.
Qed.

Lemma addSession_then_removeSession_witness :
  let s := Store.mkSession "s9" "Scratch" None Store.SessActive "openai" "gpt-4"
             "0.7" 4096 None None "main" ∅ "2024-01-01" "2024-01-01" in
  Store.removeSession "s9" (Store.addSession s Store.initial) = Store.initial.
Proof.
  intros s. apply (addSession_then_removeSession Store.initial s).
  - intros s' Hs'. simpl in Hs'. by apply elem_of_nil in Hs'.
  - intros c Hc. discriminate Hc.
Defined.

(** X3. [updateSession] patches in place: the list keeps its length, the
    session at each position is merged with the patch when its id is the
    given one and is untouched otherwise; a patch that does not carry an
    id leaves the ids of the list as they were; the patch with no key
    leaves the store as it was; conversations are never touched. *)
Theorem updateSession_patches_in_place
    (st : Store.SessionState) (sessionId : string) (u : Store.SessionPatch) :
  let st' := Store.updateSession sessionId u st in
  length (Store.sessions st') = length (Store.sessions st)
  ∧ (∀ (i : nat) s, Store.sessions st !! i = Some s →
       Store.sessions st' !! i
       = Some (if decide (Store.sess_id s = sessionId)
               then Store.merge_session s u else s))
  ∧ (Store.patch_sess_id u = None →
     Store.sess_id <$> Store.sessions st' = Store.sess_id <$> Store.sessions st)
  ∧ Store.updateSession sessionId no_session_patch st = st
  ∧ Store.conversations st' = Store.conversations st
  ∧ Store.currentConversation st' = Store.currentConversation st.
Proof.
  intros st'. subst st'. unfold Store.updateSession. simpl.
  split; [by rewrite length_fmap|].
  split; [intros i s Hi; by rewrite list_lookup_fmap, Hi|].
  split; [|split; [|done]].
  - intros Hid. rewrite <- list_fmap_compose. apply list_fmap_ext.
    intros i s _. simpl. by apply update_if_session_id.
  - destruct st as [cur ss cc cs ld ws ag rs].
    unfold Store.setCurrentSession, Store.setSessions. simpl. f_equal.
    + destruct cur as [c|]; [|done]. simpl. by rewrite update_if_session_none.
    + rewrite <- (list_fmap_id ss) at 2. apply list_fmap_ext.
      intros i s _. apply update_if_session_none.
Qed.

Lemma updateSession_patches_in_place_witness :
  let s := Store.mkSession "s1" "Old title" None Store.SessActive "openai" "gpt-4"
             "0.7" 4096 None None "main" ∅ "2024-01-01" "2024-01-01" in
  let u := Store.mkSessionPatch None (Some "New title") None None None None None
             None None None None None None None in
  let st' := Store.updateSession "s1" u (Store.addSession s Store.initial) in
  Store.sess_title <$> Store.sessions st' = ["New title"]
  ∧ Store.sess_id <$> Store.sessions st' = ["s1"].
Proof.
  intros s u st'.
  destruct (updateSession_patches_in_place (Store.addSession s Store.initial) "s1" u)
    as (_ & Hat & Hids & _).
  split; [reflexivity|]. unfold st'. by rewrite Hids.
Defined.

(** X4. When the current session is one of the listed sessions, it still
    is after [addSession], after [removeSession] and after
    [updateSession]: these operations apply to the current session what
    they apply to the list. *)
Theorem current_session_stays_listed
    (st : Store.SessionState) (s : Store.Session) (sessionId : string)
    (u : Store.SessionPatch) :
  session_listed st →
  session_listed (Store.addSession s st)
  ∧ session_listed (Store.removeSession sessionId st)
  ∧ session_listed (Store.updateSession sessionId u st).
Proof.
  intros Hlisted. split; [|split].
  - intros c Hc. simpl in *. right. by apply Hlisted.
  - intros c Hc. unfold Store.removeSession in *. simpl in *.
    destruct (Store.currentSession st) as [c0|] eqn:Hcur; [|done].
    case_decide as Hid; [done|]. injection Hc as <-.
    apply list_elem_of_filter. split; [done|]. by apply Hlisted.
  - intros c Hc. unfold Store.updateSession in *. simpl in *.
    destruct (Store.currentSession st) as [c0|] eqn:Hcur; [|done].
    injection Hc as <-. apply list_elem_of_fmap_2. by apply Hlisted.
Qed.

Lemma current_session_stays_listed_witness :
  let s := Store.mkSession "s1" "Title" None Store.SessActive "openai" "gpt-4"
             "0.7" 4096 None None "main" ∅ "2024-01-01" "2024-01-01" in
  let st := Store.setCurrentSession (Some s) (Store.addSession s Store.initial) in
  session_listed (Store.removeSession "s1" st)
  ∧ Store.currentSession (Store.removeSession "s1" st) = None.
Proof.
  intros s st.
  destruct (current_session_stays_listed st s "s1" no_session_patch) as (_ & Hrem & _).
  - intros c Hc. injection Hc as <-. by left.
  - split; [exact Hrem | reflexivity].
Defined.

(** ** Conversations and messages *)

Section ConversationMap.
Import Store.
Implicit Types (st : SessionState) (c : Conversation) (m : Message).

(** All the operations that rewrite conversations do it with one function,
    applied to every listed conversation and to the current one. *)
Lemma mapped_conversation_listed (f : Conversation → Conversation) st :
  conversation_listed st →
  conversation_listed
    (with_conversations ((λ cs : list Conversation, f <$> cs) <$> conversations st)
       (f <$> currentConversation st) st).
Proof.
  intros Hlisted c' Hc'. simpl in Hc'.
  destruct (currentConversation st) as [c|] eqn:Hcur; [|done].
  injection Hc' as <-.
  destruct (Hlisted c Hcur) as (k & cs & Hk & Hin).
  exists k, (f <$> cs). simpl. rewrite lookup_fmap, Hk.
  split; [done|]. by apply list_elem_of_fmap_2.
Qed.

(** A conversation after a batch of [addMessage] calls. *)
Lemma append_batch c (ms : list Message) :
  foldl (λ c m, append_if_target m c) c ms
  = with_messages c (messages c ++ addressed_to c ms).
Proof.
  revert c. induction ms as [|m ms IH]; intros c.
  - unfold addressed_to. simpl. rewrite app_nil_r. by destruct c.
  - simpl. rewrite IH. unfold append_if_target, addressed_to.
    rewrite filter_cons. case_decide as Hid.
    + rewrite decide_True by done. simpl. by rewrite <- app_assoc.
    + rewrite decide_False by done. done.
Qed.

Lemma addMessages_conversations (ms : list Message) st :
  conversations (addMessages ms st)
  = (λ cs : list Conversation,
       (λ c, foldl (λ c m, append_if_target m c) c ms) <$> cs) <$> conversations st
  ∧ currentConversation (addMessages ms st)
    = (λ c, foldl (λ c m, append_if_target m c) c ms) <$> currentConversation st.
Proof.
  revert st. induction ms as [|m ms IH]; intros st.
  - simpl. split.
    + rewrite <- (map_fmap_id (conversations st)) at 1. apply map_fmap_ext.
      intros k cs _. simpl. by rewrite list_fmap_id.
    + by destruct (currentConversation st).
  - change (addMessages (m :: ms) st) with (addMessages ms (addMessage m st)).
    destruct (IH (addMessage m st)) as [-> ->]. simpl. split.
    + rewrite <- map_fmap_compose. apply map_fmap_ext.
      intros k cs _. simpl. by rewrite <- list_fmap_compose.
    + by destruct (currentConversation st).
Qed.

Lemma merge_message_none m : merge_message m no_message_patch = m.
Proof. by destruct m. Qed.

Lemma update_messages_of_none (messageId : string) c :
  update_messages_of messageId no_message_patch c = c.
Proof.
  unfold update_messages_of.
  rewrite (list_fmap_ext _ id (messages c)).
  - rewrite list_fmap_id. by destruct c.
  - intros i m _. unfold update_if_message. simpl.
    case_decide; [apply merge_message_none | done].
Qed.

Lemma merge_conversation_none c : merge_conversation c no_conversation_patch = c.
Proof. by destruct c. Qed.

Lemma update_if_conversation_none (conversationId : string) c :
  update_if_conversation conversationId no_conversation_patch c = c.
Proof.
  unfold update_if_conversation. case_decide; [apply merge_conversation_none | done].
Qed.

(** Rewriting every conversation with a function that changes none. *)
Lemma with_conversations_id (f : Conversation → Conversation) st :
  (∀ c, f c = c) →
  with_conversations ((λ cs : list Conversation, f <$> cs) <$> conversations st)
    (f <$> currentConversation st) st = st.
Proof.
  intros Hf. destruct st as [cur ss cc cs ld ws ag rs].
  unfold with_conversations. simpl. f_equal.
  - destruct cc as [c|]; [|done]. simpl. by rewrite Hf.
  - rewrite <- (map_fmap_id cs) at 2. apply map_fmap_ext.
    intros k l _. simpl. rewrite <- (list_fmap_id l) at 2.
    apply list_fmap_ext. intros i c _. apply Hf.
Qed.

End ConversationMap.

(** X5. [addConversation] puts the conversation in front of the list of
    its session, creating the list when the session has none, and touches
    no other session and not the current conversation. A message addressed
    to it that is added next lands in it: the head of the session's list
    is then the conversation with the message at the end of its messages.
    The one exception: when the store has no list for the session and the
    session id is a name that objects inherit ([constructor], [toString],
    [__proto__], ...), the updater throws and nothing is stored. *)
Theorem addConversation_then_addMessage
    (st : Store.SessionState) (c : Store.Conversation) (m : Store.Message) :
  Store.conversation_id m = Store.conv_id c →
  let key := Store.session_id c in
  let old := default [] (Store.conversations st !! key) in
  (Store.conversations st !! key = None → key ∈ Store.object_prototype_keys →
   Store.addConversation c st = None)
  ∧ (is_Some (Store.conversations st !! key) ∨ key ∉ Store.object_prototype_keys →
     ∃ st1, Store.addConversation c st = Some st1
       ∧ Store.conversations st1 !! key = Some (c :: old)
       ∧ (∀ k : string, k ≠ key →
            Store.conversations st1 !! k = Store.conversations st !! k)
       ∧ Store.currentConversation st1 = Store.currentConversation st
       ∧ Store.conversations (Store.addMessage m st1) !! key
         = Some (Store.with_messages c (Store.messages c ++ [m])
                   :: (Store.append_if_target m <$> old))).
Proof.
  intros Hid key old. split.
  - intros Hnone Hin. unfold Store.addConversation, Store.spread_or_empty.
    fold key. rewrite Hnone. by rewrite decide_True.
  - intros Hok.
    assert (Hspread : Store.spread_or_empty (Store.conversations st) key = Some old).
    { unfold Store.spread_or_empty. subst old.
      destruct (Store.conversations st !! key) as [cs|] eqn:Hk; [done|].
      destruct Hok as [[cs Hcs]|Hnot]; [done|]. by rewrite decide_False. }
    exists (Store.with_conversations (<[key := c :: old]> (Store.conversations st))
              (Store.currentConversation st) st).
    split; [unfold Store.addConversation; fold key; by rewrite Hspread|].
    assert (H1 : (<[key := c :: old]> (Store.conversations st)) !! key
                 = Some (c :: old)) by apply lookup_insert_eq.
    split; [exact H1|]. split; [|split; [done|]].
    + intros k Hk. simpl. by rewrite lookup_insert_ne.
    + rewrite addMessage_lookup.
      cbn [Store.conversations Store.with_conversations].
      rewrite H1. simpl. do 2 f_equal.
      unfold Store.append_if_target. by rewrite decide_True.
Qed.

Lemma addConversation_then_addMessage_witness :
  let m := assistant_message
             (demo_frame "agent_response_end" None (Some "c2") (Some "Done"))
             "Done" demo_clock in
  ∃ st1, Store.addConversation (demo_conversation "c2") (demo_store "c1") = Some st1
    ∧ Store.conversations (Store.addMessage m st1) !! "s1"
      = Some [Store.with_messages (demo_conversation "c2") [m]; demo_conversation "c1"].
Proof.
  intros m.
  assert (Hold : Store.conversations (demo_store "c1")
                   !! Store.session_id (demo_conversation "c2")
                 = Some [demo_conversation "c1"]).
  { change (({[ "s1" := [demo_conversation "c1"] ]}
              : gmap string (list Store.Conversation)) !! "s1"
            = Some [demo_conversation "c1"]).
    apply lookup_singleton_eq. }
  destruct (addConversation_then_addMessage (demo_store "c1") (demo_conversation "c2") m)
    as (_ & Hok); [reflexivity|].
  destruct Hok as (st1 & Hst1 & _ & _ & _ & Hland).
  - left. rewrite Hold. by eexists.
  - exists st1. split; [exact Hst1|].
    refine (eq_trans Hland _). rewrite Hold. reflexivity.
Defined.

(** X6. When the current conversation is one of the listed conversations,
    it still is after [addMessage], [updateMessage], [updateConversation]
    and [addConversation]: the first three rewrite the current conversation
    as they rewrite the listed ones, the last one only adds to a list (or
    throws and leaves the store as it was). *)
Theorem current_conversation_stays_listed
    (st : Store.SessionState) (m : Store.Message) (c : Store.Conversation)
    (messageId conversationId : string)
    (mu : Store.MessagePatch) (cu : Store.ConversationPatch) :
  conversation_listed st →
  conversation_listed (Store.addMessage m st)
  ∧ conversation_listed (Store.updateMessage messageId mu st)
  ∧ conversation_listed (Store.updateConversation conversationId cu st)
  ∧ conversation_listed (default st (Store.addConversation c st)).
Proof.
  intros Hlisted. split; [|split; [|split]].
  - apply (mapped_conversation_listed (Store.append_if_target m) st Hlisted).
  - apply (mapped_conversation_listed (Store.update_messages_of messageId mu) st Hlisted).
  - apply (mapped_conversation_listed
             (Store.update_if_conversation conversationId cu) st Hlisted).
  - unfold Store.addConversation.
    destruct (Store.spread_or_empty (Store.conversations st) (Store.session_id c))
      as [rest|] eqn:Hrest; simpl; [|exact Hlisted].
    intros c0 Hc0. simpl in Hc0.
    destruct (Hlisted c0 Hc0) as (k & cs & Hk & Hin).
    destruct (decide (k = Store.session_id c)) as [->|Hne].
    + exists (Store.session_id c), (c :: rest). simpl.
      rewrite lookup_insert_eq. split; [done|]. right.
      unfold Store.spread_or_empty in Hrest. rewrite Hk in Hrest.
      by injection Hrest as <-.
    + exists k, cs. simpl. by rewrite lookup_insert_ne.
Qed.

Lemma current_conversation_stays_listed_witness :
  let m := assistant_message
             (demo_frame "agent_response_end" None (Some "c1") (Some "Done"))
             "Done" demo_clock in
  conversation_listed (Store.addMessage m (demo_store "c1")).
Proof.
  intros m.
  destruct (current_conversation_stays_listed (demo_store "c1") m
              (demo_conversation "c2") "m1" "c1" no_message_patch no_conversation_patch)
    as (Hadd & _); [|exact Hadd].
  intros c Hc. injection Hc as <-. exists "s1", [demo_conversation "c1"].
  split; [|by left].
  change (({[ "s1" := [demo_conversation "c1"] ]}
            : gmap string (list Store.Conversation)) !! "s1"
          = Some [demo_conversation "c1"]).
  apply lookup_singleton_eq.
Defined.

(** X7. [updateMessage] patches messages in place: every session keeps
    its conversations and every conversation its fields and the number and
    order of its messages; the message at each position is merged with the
    patch when its id is the given one and is untouched otherwise, so no
    message is added, dropped or moved to another conversation. The patch
    with no key leaves the store as it was. *)
Theorem updateMessage_patches_in_place
    (st : Store.SessionState) (messageId : string) (u : Store.MessagePatch) :
  let st' := Store.updateMessage messageId u st in
  (∀ k : string,
     match Store.conversations st !! k, Store.conversations st' !! k with
     | Some cs, Some cs' =>
         length cs' = length cs
         ∧ ∀ (i : nat) c, cs !! i = Some c →
             ∃ c', cs' !! i = Some c'
                   ∧ c' = Store.with_messages c (Store.messages c')
                   ∧ length (Store.messages c') = length (Store.messages c)
                   ∧ ∀ (j : nat) m, Store.messages c !! j = Some m →
                       Store.messages c' !! j
                       = Some (if decide (Store.msg_id m = messageId)
                               then Store.merge_message m u else m)
     | None, None => True
     | _, _ => False
     end)
  ∧ Store.updateMessage messageId no_message_patch st = st
  ∧ Store.sessions st' = Store.sessions st
  ∧ Store.currentSession st' = Store.currentSession st
  ∧ Store.agentStatus st' = Store.agentStatus st
  ∧ Store.currentResponse st' = Store.currentResponse st.
Proof.
  intros st'. subst st'. split; [|split; [|done]].
  - intros k. unfold Store.updateMessage. simpl. rewrite lookup_fmap.
    destruct (Store.conversations st !! k) as [cs|]; simpl; [|done].
    split; [by rewrite length_fmap|].
    intros i c Hi. exists (Store.update_messages_of messageId u c).
    rewrite list_lookup_fmap, Hi. split; [done|].
    unfold Store.update_messages_of. simpl. split; [done|].
    split; [by rewrite length_fmap|].
    intros j m Hj. by rewrite list_lookup_fmap, Hj.
  - unfold Store.updateMessage. apply with_conversations_id.
    intros c. apply update_messages_of_none.
Qed.

(** X8. [updateConversation] patches conversations in place: every session
    keeps the number and order of its conversations, the conversation at
    each position is merged with the patch when its id is the given one and
    is untouched otherwise; a patch that carries no [messages] key keeps
    the messages of every conversation; the patch with no key leaves the
    store as it was. *)
Theorem updateConversation_patches_in_place
    (st : Store.SessionState) (conversationId : string) (u : Store.ConversationPatch) :
  let st' := Store.updateConversation conversationId u st in
  (∀ k : string,
     match Store.conversations st !! k, Store.conversations st' !! k with
     | Some cs, Some cs' =>
         length cs' = length cs
         ∧ ∀ (i : nat) c, cs !! i = Some c →
             ∃ c', cs' !! i = Some c'
                   ∧ c' = (if decide (Store.conv_id c = conversationId)
                           then Store.merge_conversation c u else c)
                   ∧ (Store.patch_messages u = None →
                      Store.messages c' = Store.messages c)
     | None, None => True
     | _, _ => False
     end)
  ∧ (Store.patch_messages u = None →
     ∀ c, Store.currentConversation st = Some c →
          ∃ c', Store.currentConversation st' = Some c'
                ∧ Store.messages c' = Store.messages c)
  ∧ Store.updateConversation conversationId no_conversation_patch st = st.
Proof.
  intros st'. subst st'. split; [|split].
  - intros k. unfold Store.updateConversation. simpl. rewrite lookup_fmap.
    destruct (Store.conversations st !! k) as [cs|]; simpl; [|done].
    split; [by rewrite length_fmap|].
    intros i c Hi. exists (Store.update_if_conversation conversationId u c).
    rewrite list_lookup_fmap, Hi. split; [done|]. split; [done|].
    intros Hnone. unfold Store.update_if_conversation.
    case_decide; [|done]. simpl. by rewrite Hnone.
  - intros Hnone c Hc. unfold Store.updateConversation. simpl. rewrite Hc. simpl.
    eexists. split; [done|]. unfold Store.update_if_conversation.
    case_decide; [|done]. simpl. by rewrite Hnone.
  - unfold Store.updateConversation. apply with_conversations_id.
    intros c. apply update_if_conversation_none.
Qed.

Lemma updateConversation_patches_in_place_witness :
  let m := assistant_message
             (demo_frame "agent_response_end" None (Some "c1") (Some "Done"))
             "Done" demo_clock in
  let u := Store.mkConversationPatch None None (Some "Renamed") None None None None
             None None None in
  let st' := Store.updateConversation "c1" u (Store.addMessage m (demo_store "c1")) in
  ∃ c', Store.currentConversation st' = Some c'
        ∧ Store.conv_title c' = "Renamed"
        ∧ Store.messages c' = [m].
Proof.
  intros m u st'.
  destruct (updateConversation_patches_in_place
              (Store.addMessage m (demo_store "c1")) "c1" u) as (_ & Hkeep & _).
  destruct (Hkeep eq_refl (Store.append_if_target m (demo_conversation "c1")) eq_refl)
    as (c' & Hc' & Hmsgs).
  exists c'. split; [exact Hc'|]. split; [|exact Hmsgs].
  unfold st' in Hc'. simpl in Hc'. by injection Hc' as <-.
Defined.

(** X9. A batch of [addMessage] calls appends to every conversation, and
    to the current one, exactly the messages of the batch that are
    addressed to it, in call order, after the messages it had; no
    conversation is added or dropped. *)
Theorem addMessages_appends_in_call_order
    (st : Store.SessionState) (ms : list Store.Message) :
  let st' := addMessages ms st in
  (∀ k : string,
     match Store.conversations st !! k, Store.conversations st' !! k with
     | Some cs, Some cs' =>
         length cs' = length cs
         ∧ ∀ (i : nat) c, cs !! i = Some c →
             cs' !! i
             = Some (Store.with_messages c (Store.messages c ++ addressed_to c ms))
     | None, None => True
     | _, _ => False
     end)
  ∧ Store.currentConversation st'
    = (λ c, Store.with_messages c (Store.messages c ++ addressed_to c ms))
        <$> Store.currentConversation st.
Proof.
  intros st'. subst st'.
  destruct (addMessages_conversations ms st) as [-> ->]. split.
  - intros k. rewrite lookup_fmap.
    destruct (Store.conversations st !! k) as [cs|]; simpl; [|done].
    split; [by rewrite length_fmap|].
    intros i c Hi. by rewrite list_lookup_fmap, Hi, <- append_batch.
  - destruct (Store.currentConversation st) as [c|]; [|done].
    simpl. by rewrite append_batch.
Qed.

(** * Further properties of the components *)

(** X10. When the conversations of a session arrive, they replace the list
    stored for that session and no other list. If the page rendered
    without a current conversation and the list is not empty, its first
    conversation becomes the current one, and is listed; if the page
    rendered with a current conversation, or the list is empty, the
    current conversation of the store is left as it is. *)
Theorem conversations_onSuccess_sets_the_first
    (sessionId : string) (rendered_current : option Store.Conversation)
    (conversations : list Store.Conversation) (st : Store.SessionState) :
  let st' := conversations_onSuccess sessionId rendered_current conversations st in
  Store.conversations st' !! sessionId = Some conversations
  ∧ (∀ k : string, k ≠ sessionId →
       Store.conversations st' !! k = Store.conversations st !! k)
  ∧ (rendered_current = None →
     ∀ first rest, conversations = first :: rest →
       Store.currentConversation st' = Some first ∧ conversation_listed st')
  ∧ (is_Some rendered_current ∨ conversations = [] →
     Store.currentConversation st' = Store.currentConversation st).
Proof.
  intros st'. subst st'. unfold conversations_onSuccess.
  split; [|split; [|split]].
  - destruct conversations as [|first rest], rendered_current as [c|]; simpl;
      apply lookup_insert_eq.
  - intros k Hk.
    destruct conversations as [|first rest], rendered_current as [c|]; simpl;
      by rewrite lookup_insert_ne.
  - intros -> first rest ->. simpl. split; [done|].
    intros c Hc. simpl in Hc. injection Hc as <-.
    exists sessionId, (first :: rest). simpl.
    rewrite lookup_insert_eq. split; [done | by left].
  - intros [[c ->]| ->].
    + by destruct conversations.
    + done.
Qed.

Lemma conversations_onSuccess_sets_the_first_witness :
  let st' := conversations_onSuccess "s1" None
               [demo_conversation "c1"; demo_conversation "c2"] Store.initial in
  Store.currentConversation st' = Some (demo_conversation "c1")
  ∧ conversation_listed st'.
Proof.
  intros st'.
  destruct (conversations_onSuccess_sets_the_first "s1" None
              [demo_conversation "c1"; demo_conversation "c2"] Store.initial)
    as (_ & _ & Hfirst & _).
  exact (Hfirst eq_refl (demo_conversation "c1") [demo_conversation "c2"] eq_refl).
Defined.

(** X11. The sidebar's delete handler does nothing when the user declines
    and only shows a notice when the request fails; its create handler
    only shows a notice when the request fails. When the request succeeds,
    each writes to the store a list computed from the list of sessions the
    sidebar rendered, whatever the store holds by then: the rendered list
    without the deleted id, or the new session in front of the rendered
    list. When the rendered list and the rendered current session are
    those of the store, the store afterwards is exactly the one
    [removeSession], or [addSession], gives. *)
Theorem sidebar_handlers_write_the_rendered_list
    (rendered_sessions : list Store.Session) (rendered_current : option Store.Session)
    (sessionId : string) (deleted : bool) (newSession : Store.Session) (w : World) :
  handleDeleteSession rendered_sessions rendered_current sessionId false deleted w = w
  ∧ session (handleDeleteSession rendered_sessions rendered_current sessionId true false w)
    = session w
  ∧ Store.sessions
      (session (handleDeleteSession rendered_sessions rendered_current sessionId true true w))
    = filter (λ s, Store.sess_id s ≠ sessionId) rendered_sessions
  ∧ session (handleDeleteSession (Store.sessions (session w))
               (Store.currentSession (session w)) sessionId true true w)
    = Store.removeSession sessionId (session w)
  ∧ session (handleCreateSession rendered_sessions None w) = session w
  ∧ Store.sessions (session (handleCreateSession rendered_sessions (Some newSession) w))
    = newSession :: rendered_sessions
  ∧ session (handleCreateSession (Store.sessions (session w)) (Some newSession) w)
    = Store.addSession newSession (session w).
Proof.
  split; [done|]. split; [done|]. split; [|split; [|done]].
  - unfold handleDeleteSession. simpl.
    destruct rendered_current as [c|]; [case_decide|]; done.
  - unfold handleDeleteSession, Store.removeSession. simpl.
    destruct (session w) as [cur ss cc cs ld ws ag rs]. simpl.
    destruct cur as [c|]; [case_decide|]; done.
Qed.

(** X12. The header reads ["Ready"], in the colour of success, exactly
    when the application is connected and the agent is idle, and reads
    ["Disconnected"] exactly when it is not connected, whatever the agent
    activity state; after every closure of a transport it reads
    ["Disconnected"] in the colour of errors. *)
Theorem header_reads_disconnected_after_closure
    (connected : bool) (status : Store.AgentStatus) (w : World) (code : Z) :
  (getStatusText connected status = "Ready" ↔ connected = true ∧ status = Store.idle)
  ∧ (getStatusColor connected status = "bg-success-500"
     ↔ connected = true ∧ status = Store.idle)
  ∧ (getStatusText connected status = "Disconnected" ↔ connected = false)
  ∧ let w' := exec (onclose code) w in
    getStatusText (App.isConnected (app w')) (Store.agentStatus (session w'))
    = "Disconnected"
    ∧ getStatusColor (App.isConnected (app w')) (Store.agentStatus (session w'))
      = "bg-error-500".
Proof.
  split; [|split; [|split]].
  - destruct connected, status; simpl; split; try done; by intros [? ?].
  - destruct connected, status; simpl; split; try done; by intros [? ?].
  - destruct connected, status; simpl; split; done.
  - unfold exec. rewrite onclose_eq. simpl.
    by destruct (negb (code =? 1000)%Z && (reconnectAttemptsRef w <? maxReconnectAttempts)%nat).
Qed.

(** X13. [toggleTheme] undoes itself. [initializeApp] acts once: it marks
    the application initialized, a second call changes nothing, and it
    does not undo a later [toggleTheme]; on an application that is not yet
    initialized it replaces the theme by the system's, whatever the theme
    was. *)
Theorem initializeApp_acts_once (st : App.AppState) (prefers_dark again : bool) :
  App.toggleTheme (App.toggleTheme st) = st
  ∧ App.isInitialized (App.initializeApp prefers_dark st) = true
  ∧ App.initializeApp again (App.initializeApp prefers_dark st)
    = App.initializeApp prefers_dark st
  ∧ App.initializeApp again (App.toggleTheme (App.initializeApp prefers_dark st))
    = App.toggleTheme (App.initializeApp prefers_dark st)
  ∧ (App.isInitialized st = false →
     App.theme (App.initializeApp prefers_dark st)
     = if prefers_dark then App.dark else App.light).
Proof.
  destruct st as [th pr sb co ini]. unfold App.initializeApp, App.toggleTheme. simpl.
  split; [by destruct th|].
  destruct ini; simpl; repeat split; try done.
Qed.

Lemma initializeApp_acts_once_witness :
  App.theme (App.initializeApp true App.initial) = App.dark
  ∧ App.theme (App.initializeApp false
                 (App.toggleTheme (App.initializeApp true App.initial))) = App.light.
Proof.
  destruct (initializeApp_acts_once App.initial true false) as (_ & _ & _ & Hkeep & Hsys).
  split; [exact (Hsys eq_refl)|]. by rewrite Hkeep.
Defined.

(** * Further properties of the hook *)

Section HookFrames.
Implicit Types (env : Env) (w : World).

(** A frame changes the session store and the toasts, nothing else. *)
Lemma onmessage_frame (f : Frame) (clk : Clock) w :
  let w' := exec (onmessage f clk) w in
  sockets w' = sockets w ∧ timers w' = timers w ∧ app w' = app w
  ∧ wsRef w' = wsRef w ∧ reconnectTimeoutRef w' = reconnectTimeoutRef w
  ∧ reconnectAttemptsRef w' = reconnectAttemptsRef w.
Proof.
  destruct f as [data|[|m]]; [done..|].
  unfold exec, onmessage, try_catch, handleMessage. simpl.
  unfold mbind, Js_bind, mret, Js_ret. simpl.
  repeat (match goal with
          | |- context [type m =? ?k] => destruct (type m =? k); simpl
          end).
  all: try done.
  all: try (destruct (content m) as [c|]; [destruct (truthy c)|]; done).
  all: try (destruct (full_response m) as [c|]; [destruct (truthy c)|]; done).
  all: by destruct (success m).
Qed.

Lemma onmessage_timers (f : Frame) (clk : Clock) w :
  timers (exec (onmessage f clk) w) = timers w
  ∧ sockets (exec (onmessage f clk) w) = sockets w
  ∧ wsRef (exec (onmessage f clk) w) = wsRef w.
Proof. destruct (onmessage_frame f clk w) as (? & ? & ? & ? & ? & ?). done. Qed.

Lemma onopen_timers (now : Z) w :
  timers (exec (onopen now) w) = timers w
  ∧ wsRef (exec (onopen now) w) = wsRef w
  ∧ length (sockets (exec (onopen now) w)) = length (sockets w).
Proof.
  unfold exec, onopen, ws_send, mbind, Js_bind, mret, Js_ret.
  destruct w as [ss ts tos se ap [i|] rt n]; simpl; [|done].
  destruct (ss !! i) as [[u [] o c]|]; simpl; try done.
  by rewrite length_insert.
Qed.

Lemma connect_timers env w : timers (exec (connect env) w) = timers w.
Proof.
  unfold exec, connect, try_catch, new_WebSocket.
  destruct (truthy_opt (sessionId env)); simpl; [|done].
  by destruct (ctor_throws env (wsUrl env)).
Qed.

Lemma disconnect_timers w :
  timers (exec disconnect w)
  = match reconnectTimeoutRef w with
    | Some h => alter cancel h (timers w)
    | None => timers w
    end.
Proof.
  unfold exec. rewrite disconnect_eq.
  destruct w as [ss ts tos se ap [i|] [h|] n]; simpl; try done;
    unfold begin_close; simpl; by destruct (ss !! i) as [[u [] o c]|].
Qed.

Lemma disconnect_attempts w :
  reconnectAttemptsRef (exec disconnect w) = reconnectAttemptsRef w.
Proof.
  unfold exec. rewrite disconnect_eq.
  destruct w as [ss ts tos se ap [i|] [h|] n]; simpl; try done;
    unfold begin_close; simpl; by destruct (ss !! i) as [[u [] o c]|].
Qed.

(** What one turn of the event loop does to the timers: nothing, or it
    retires one, or (on a close event only) it adds one of the policy. *)
Lemma step_timers env w (e : Event) :
  timers (step env w e) = timers w
  ∨ (∃ h, timers (step env w e) = alter cancel h (timers w))
  ∨ (∃ (i : nat) (code : Z) (n : nat),
       e = Closed i code ∧ code ≠ 1000%Z ∧ n < 5
       ∧ timers (step env w e) = timers w ++ [mkTimer (backoff_delay n) true]).
Proof.
  unfold step. destruct (enabled e w) eqn:Hen; [|by left].
  destruct e as [| |i now|i data clk|i|i code|h]; simpl.
  - left. apply connect_timers.
  - rewrite disconnect_timers.
    destruct (reconnectTimeoutRef w) as [h|]; [right; left; by exists h | by left].
  - left. unfold exec, mbind, Js_bind, modify.
    change (timers (exec (onopen now) (set_readyState i OPEN w)) = timers w).
    by destruct (onopen_timers now (set_readyState i OPEN w)) as (-> & _).
  - left. by destruct (onmessage_timers data clk w) as (-> & _).
  - by left.
  - unfold exec, mbind, Js_bind, modify. rewrite onclose_eq. simpl.
    destruct (negb (code =? 1000)%Z) eqn:Hcode; simpl; [|by left].
    destruct (reconnectAttemptsRef w <? maxReconnectAttempts)%nat eqn:Hn; [|by left].
    right; right. exists i, code, (reconnectAttemptsRef w).
    split; [done|]. split; [|split; [|done]].
    + apply negb_true_iff, Z.eqb_neq in Hcode. done.
    + by apply Nat.ltb_lt in Hn.
  - right; left. exists h. unfold exec, reconnect_callback, mbind, Js_bind, modify.
    change (timers (exec (connect env)
                      (set_reconnectAttemptsRef (S (reconnectAttemptsRef (expire h w)))
                         (expire h w))) = alter cancel h (timers w)).
    by rewrite connect_timers.
Qed.

Lemma backoff_delay_of_policy (n : nat) :
  n < 5 → backoff_delay n ∈ [1000; 2000; 4000; 8000; 16000]%Z.
Proof.
  intros Hn. destruct n as [|[|[|[|[|n]]]]]; [| | | | |lia]; vm_compute;
    repeat first [by left | right].
Qed.

End HookFrames.

(** X14. Along every run of the event loop, the timers keep the delays of
    the policy: when every timer of the starting world has one of the
    delays 1000, 2000, 4000, 8000, 16000, so has every timer afterwards;
    the cap of 30000 ms is never the delay of a timer. Timers are never
    removed, and no event other than the close event of a socket creates
    one. *)
Theorem timers_keep_the_policy (env : Env) (es : list Event) (w : World) :
  delays_of_policy w →
  delays_of_policy (run env es w)
  ∧ (length (timers w) ≤ length (timers (run env es w)))%nat
  ∧ ∀ e : Event, (∀ (i : nat) (code : Z), e ≠ Closed i code) →
      length (timers (step env w e)) = length (timers w).
Proof.
  intros Hpolicy. split; [|split].
  - revert w Hpolicy. induction es as [|e es IH]; intros w Hpolicy; [done|].
    apply IH. unfold delays_of_policy in *.
    destruct (step_timers env w e) as [->|[[h ->]|(i & code & n & _ & _ & Hn & ->)]].
    + done.
    + apply Forall_alter; [done|]. by intros [d p] _.
    + apply Forall_app. split; [done|].
      apply Forall_singleton. simpl. by apply backoff_delay_of_policy.
  - clear Hpolicy. revert w. induction es as [|e es IH]; intros w; [done|].
    simpl. etrans; [|apply IH].
    destruct (step_timers env w e) as [->|[[h ->]|(i & code & n & _ & _ & _ & ->)]].
    + done.
    + by rewrite length_alter.
    + rewrite length_app. simpl. lia.
  - intros e Hnot.
    destruct (step_timers env w e) as [->|[[h ->]|(i & code & n & -> & _)]].
    + done.
    + by rewrite length_alter.
    + by destruct (Hnot i code).
Qed.

Lemma timers_keep_the_policy_witness :
  let w := run demo_env
             [Connect; Closed 0 1006; TimerFired 0; Opened 1 5; Closed 1 1011;
              Disconnect; Connect]
             initial_world in
  delays_of_policy w ∧ delay <$> timers w = [1000; 1000]%Z.
Proof.
  intros w.
  destruct (timers_keep_the_policy demo_env
              [Connect; Closed 0 1006; TimerFired 0; Opened 1 5; Closed 1 1011;
               Disconnect; Connect] initial_world) as (Hpolicy & _ & _).
  - by apply Forall_nil.
  - split; [exact Hpolicy | reflexivity].
Defined.

(** X15. A hook mounted without a session id (null, or the empty string)
    never makes a transport nor a timer, whatever is called and whatever
    the browser delivers. *)
Theorem no_session_no_transport (env : Env) (es : list Event) (w : World) :
  truthy_opt (sessionId env) = false →
  untouched w →
  untouched (run env es w).
Proof.
  intros Hsid. revert w. induction es as [|e es IH]; intros w Hw; [done|].
  apply IH. clear IH. destruct Hw as (Hs & Ht & Hr).
  destruct w as [ss ts tos se ap wr rt n]. simpl in *. subst ss ts wr.
  unfold step.
  destruct e as [| |i now|i data clk|i|i code|h]; simpl; try done.
  - unfold exec, connect. by rewrite Hsid.
  - unfold exec. rewrite disconnect_eq. by destruct rt.
Qed.

Lemma no_session_no_transport_witness :
  untouched (run (mkEnv None "https:" "replica.example" (λ _, false))
               [Connect; Opened 0 1; Closed 0 1006; TimerFired 0; Disconnect; Connect]
               initial_world).
Proof.
  apply no_session_no_transport; [reflexivity|]. by repeat split.
Defined.

(** X16. [sendMessage] transmits only on an open transport. When the
    transport the hook refers to is open, the message is serialised: what
    serialises to a text is handed to that transport as its last frame
    ([undefined] goes out as the text ["undefined"]), nothing else changes
    and the answer is [true]; a message that cannot be serialised makes
    [sendMessage] throw, with nothing sent and nothing changed. When that
    transport is not open, the message is not serialised: the answer is
    [false], nothing is sent and the connection-lost notice is shown. So
    [sendMessage] throws exactly on an open transport with a message that
    cannot be serialised, and answers [true] exactly on an open transport
    with one that can. *)
Theorem sendMessage_transmits_only_when_open (message : AnyValue) (w : World) :
  (∀ (i : nat) s,
     wsRef w = Some i → sockets w !! i = Some s → readyState s = OPEN →
     sendMessage message w
     = match message with
       | Stringifies json =>
           (Normal true,
            set_sockets
              (<[i := mkWebSocket (url s) OPEN (outbox s ++ [Payload json]) (closeCall s)]>
                 (sockets w)) w)
       | StringifiesToUndefined =>
           (Normal true,
            set_sockets
              (<[i := mkWebSocket (url s) OPEN (outbox s ++ [Payload "undefined"])
                        (closeCall s)]> (sockets w)) w)
       | NotStringifiable => (Thrown TypeError, w)
       end)
  ∧ ((∀ i : nat, wsRef w = Some i → open_at w i = false) →
     sendMessage message w
     = (Normal false,
        set_toasts (toasts w ++ [ToastError "Connection lost. Please refresh the page."]) w))
  ∧ (returns (sendMessage message) w = false
     ↔ message = NotStringifiable ∧ ∃ i, wsRef w = Some i ∧ open_at w i = true)
  ∧ ((sendMessage message w).1 = Normal true
     ↔ message ≠ NotStringifiable ∧ ∃ i, wsRef w = Some i ∧ open_at w i = true).
Proof.
  assert (Hopen : ∀ (i : nat) s,
            wsRef w = Some i → sockets w !! i = Some s → readyState s = OPEN →
            sendMessage message w
            = match message with
              | Stringifies json =>
                  (Normal true,
                   set_sockets
                     (<[i := mkWebSocket (url s) OPEN (outbox s ++ [Payload json])
                               (closeCall s)]> (sockets w)) w)
              | StringifiesToUndefined =>
                  (Normal true,
                   set_sockets
                     (<[i := mkWebSocket (url s) OPEN (outbox s ++ [Payload "undefined"])
                               (closeCall s)]> (sockets w)) w)
              | NotStringifiable => (Thrown TypeError, w)
              end).
  { intros i [u rs o c] Hi Hs Hrs. simpl in Hrs. subst rs.
    unfold sendMessage, JSON_stringify, ws_send, mbind, Js_bind, mret, Js_ret.
    destruct w as [ss ts tos se ap wr rt n]. simpl in *. subst wr. simpl.
    rewrite Hs. simpl. destruct message; simpl; [by rewrite Hs..|done]. }
  assert (Hclosed : (∀ i : nat, wsRef w = Some i → open_at w i = false) →
            sendMessage message w
            = (Normal false,
               set_toasts
                 (toasts w ++ [ToastError "Connection lost. Please refresh the page."]) w)).
  { intros Hnot. unfold sendMessage, open_at, mbind, Js_bind, mret, Js_ret in *.
    destruct w as [ss ts tos se ap wr rt n]. simpl in *.
    destruct wr as [i|]; [|done]. simpl. specialize (Hnot i eq_refl).
    destruct (ss !! i) as [[u rs o c]|]; [|done]. simpl in *. by destruct rs. }
  split; [exact Hopen|]. split; [exact Hclosed|].
  destruct (wsRef w) as [i|] eqn:Href.
  - destruct (open_at w i) eqn:Hat.
    + unfold open_at in Hat.
      destruct (sockets w !! i) as [s|] eqn:Hs; [|done].
      apply bool_decide_eq_true in Hat.
      unfold returns. rewrite (Hopen i s eq_refl Hs Hat).
      destruct message; simpl; split; split; try done.
      all: try (by intros [? _]).
      all: try (intros _; split; [done|]; exists i; split; [done|]).
      all: try (unfold open_at; rewrite Hs; by apply bool_decide_eq_true).
      all: by intros [Hne _].
    + unfold returns. rewrite Hclosed by (intros j [= <-]; exact Hat). simpl.
      split; split; try done.
      all: intros (_ & j & [= <-] & Hj); by rewrite Hat in Hj.
  - unfold returns. rewrite Hclosed by (intros j Hj; discriminate Hj). simpl.
    split; split; try done.
    all: by intros (_ & j & Hj & _).
Qed.

Lemma sendMessage_transmits_only_when_open_witness :
  let w := run demo_env [Connect; Opened 0 7] initial_world in
  (sendMessage (Stringifies "{}") w).1 = Normal true
  ∧ outbox <$> sockets (sendMessage (Stringifies "{}") w).2 !! 0
    = Some [Ping 7; Payload "{}"]
  ∧ sendMessage NotStringifiable w = (Thrown TypeError, w)
  ∧ (sendMessage NotStringifiable initial_world).1 = Normal false.
Proof.
  intros w.
  destruct (sendMessage_transmits_only_when_open (Stringifies "{}") w) as (Hopen & _).
  destruct (sendMessage_transmits_only_when_open NotStringifiable w) as (Hthrow & _).
  destruct (sendMessage_transmits_only_when_open NotStringifiable initial_world)
    as (_ & Hnone & _).
  rewrite (Hopen 0 (mkWebSocket "wss://replica.example/ws/s1" OPEN [Ping 7] None))
    by reflexivity.
  rewrite (Hthrow 0 (mkWebSocket "wss://replica.example/ws/s1" OPEN [Ping 7] None))
    by reflexivity.
  rewrite Hnone by (intros i Hi; discriminate Hi).
  by repeat split.
Defined.

(** X17. The [onopen] handler speaks of the transport the hook refers to,
    not of the one that opened. When that transport is open, the handler
    returns, marks the application connected, stores the transport, resets
    the attempt counter and hands it one ping. When that transport is
    still connecting (the open event is that of an earlier transport), the
    application is marked connected and the connecting transport is stored
    all the same, then the ping throws and no transport receives it. *)
Theorem onopen_pings_the_current_transport (now : Z) (w : World) (i : nat) (s : WebSocket) :
  wsRef w = Some i →
  sockets w !! i = Some s →
  let w' := exec (onopen now) w in
  App.isConnected (app w') = true
  ∧ Store.wsConnection (session w') = Some i
  ∧ reconnectAttemptsRef w' = 0
  ∧ (readyState s = OPEN →
     returns (onopen now) w = true
     ∧ sockets w'
       = <[i := mkWebSocket (url s) OPEN (outbox s ++ [Ping now]) (closeCall s)]> (sockets w))
  ∧ (readyState s = CONNECTING →
     returns (onopen now) w = false ∧ sockets w' = sockets w).
Proof.
  intros Href Hs w'. subst w'.
  unfold exec, returns, onopen, ws_send, mbind, Js_bind, mret, Js_ret.
  destruct w as [ss ts tos se ap wr rt n]. simpl in *. subst wr. simpl.
  rewrite Hs. destruct s as [u rs o c]. simpl.
  destruct rs; simpl; repeat split; done.
Qed.

Lemma onopen_pings_the_current_transport_witness :
  let w := run demo_env [Connect; Connect] initial_world in
  let w' := step demo_env w (Opened 0 7) in
  App.isConnected (app w') = true
  ∧ Store.wsConnection (session w') = Some 1
  ∧ outbox <$> sockets w' = [[]; []].
Proof.
  intros w w'.
  destruct (onopen_pings_the_current_transport 7 (set_readyState 0 OPEN w) 1
              (mkWebSocket "wss://replica.example/ws/s1" CONNECTING [] None))
    as (Hconn & Hstore & _ & _ & Hthrow); [reflexivity..|].
  destruct (Hthrow eq_refl) as [_ Hsockets].
  split; [exact Hconn|]. split; [exact Hstore|].
  change (sockets w') with (sockets (exec (onopen 7) (set_readyState 0 OPEN w))).
  by rewrite Hsockets.
Defined.

(** X18. Neither [disconnect] nor [connect] resets the attempt counter:
    only a successful open does. So when the counter has reached 5 and the
    hook disconnects and connects again (for the same session or another),
    a closure that comes before any open schedules no reconnect. *)
Theorem attempts_survive_reconnecting (env : Env) (w : World) (code : Z) :
  let w1 := exec (connect env) (exec disconnect w) in
  reconnectAttemptsRef w1 = reconnectAttemptsRef w
  ∧ ((5 ≤ reconnectAttemptsRef w)%nat →
     timers (exec (onclose code) w1) = timers w1).
Proof.
  intros w1.
  assert (Hsame : reconnectAttemptsRef w1 = reconnectAttemptsRef w).
  { subst w1. by rewrite connect_attempts, disconnect_attempts. }
  split; [exact Hsame|].
  intros Hn. unfold exec at 1. rewrite onclose_eq. simpl. rewrite Hsame.
  assert (Hge : (reconnectAttemptsRef w <? maxReconnectAttempts)%nat = false)
    by (by apply Nat.ltb_ge).
  by rewrite Hge, andb_false_r.
Qed.

Lemma attempts_survive_reconnecting_witness :
  let w := run demo_env
             [Connect; Closed 0 1006; TimerFired 0; Closed 1 1006; TimerFired 1;
              Closed 2 1006; TimerFired 2; Closed 3 1006; TimerFired 3;
              Closed 4 1006; TimerFired 4; Closed 5 1006]
             initial_world in
  let w1 := exec (connect demo_env) (exec disconnect w) in
  reconnectAttemptsRef w1 = 5
  ∧ timers (exec (onclose 1006) w1) = timers w1.
Proof.
  intros w w1.
  destruct (attempts_survive_reconnecting demo_env w 1006) as [Hsame Hnone].
  split; [exact Hsame|]. apply Hnone. vm_compute. lia.
Defined.

(** X19. After the [onopen] handler has run, the next closure whose code
    is not 1000 schedules the reconnect of 1000 ms, whatever the attempt
    counter was before the open. *)
Theorem backoff_restarts_after_open (w : World) (now code : Z) :
  code ≠ 1000%Z →
  timers (exec (onclose code) (exec (onopen now) w)) = timers w ++ [mkTimer 1000 true].
Proof.
  intros Hcode. unfold exec at 1. rewrite onclose_eq. simpl.
  rewrite onopen_attempts. apply Z.eqb_neq in Hcode. rewrite Hcode. simpl.
  by destruct (onopen_timers now w) as (-> & _).
Qed.

Lemma backoff_restarts_after_open_witness :
  let w := run demo_env
             [Connect; Closed 0 1006; TimerFired 0; Closed 1 1006; TimerFired 1]
             initial_world in
  reconnectAttemptsRef w = 2
  ∧ timers (exec (onclose 1006) (exec (onopen 9) w)) = timers w ++ [mkTimer 1000 true].
Proof.
  intros w. split; [reflexivity|].
  apply (backoff_restarts_after_open w 9 1006). discriminate.
Defined.

(** * The listener registry *)

Section Registry.
Import Listeners.
Implicit Types (listeners : Registry) (l : list nat).

Lemma set_delete_absent (callback : nat) l :
  callback ∉ l → set_delete callback l = l.
Proof.
  intros Hnot. unfold set_delete. apply filter_all.
  intros c Hc ->. by apply Hnot.
Qed.

Lemma set_delete_gone (callback : nat) l : callback ∉ set_delete callback l.
Proof. unfold set_delete. rewrite list_elem_of_filter. by intros [Hne _]. Qed.

Lemma set_add_adds (callback : nat) l : callback ∈ set_add callback l.
Proof.
  unfold set_add. case_decide; [done|].
  apply elem_of_app. right. by left.
Qed.

(** The set kept for an event type after [on]. *)
Lemma on_lookup (eventType : string) (callback : nat) listeners :
  on eventType callback listeners !! eventType
  = Some (set_add callback (default [] (listeners !! eventType))).
Proof.
  unfold on. destruct (listeners !! eventType) as [l|] eqn:Hl.
  - by rewrite lookup_alter_eq, Hl.
  - by rewrite lookup_alter_eq, lookup_insert_eq.
Qed.

Lemma on_lookup_ne (eventType k : string) (callback : nat) listeners :
  k ≠ eventType → on eventType callback listeners !! k = listeners !! k.
Proof.
  intros Hk. unfold on. destruct (listeners !! eventType) as [l|] eqn:Hl.
  - by rewrite lookup_alter_ne.
  - by rewrite lookup_alter_ne, lookup_insert_ne.
Qed.

Lemma unsubscribe_lookup (eventType : string) (callback : nat) listeners :
  default [] (unsubscribe eventType callback listeners !! eventType)
  = set_delete callback (default [] (listeners !! eventType)).
Proof.
  unfold unsubscribe. destruct (listeners !! eventType) as [l|] eqn:Hl.
  - simpl. case_decide as Hlen.
    + rewrite lookup_delete_eq. simpl. by rewrite (nil_length_inv _ Hlen).
    + by rewrite lookup_insert_eq.
  - by rewrite Hl.
Qed.

Lemma unsubscribe_lookup_ne (eventType k : string) (callback : nat) listeners :
  k ≠ eventType → unsubscribe eventType callback listeners !! k = listeners !! k.
Proof.
  intros Hk. unfold unsubscribe. destruct (listeners !! eventType) as [l|] eqn:Hl.
  - simpl. case_decide.
    + by rewrite lookup_delete_ne.
    + by rewrite lookup_insert_ne.
  - done.
Qed.

End Registry.

(** X20. In a registry whose sets are without repetition and not empty,
    subscribing a callback that is not yet registered for the event type
    and then calling the unsubscribe function gives the registry back as
    it was (the entry made for a new event type is removed again).
    Subscribing a callback that is already registered changes nothing, so
    that one call of the unsubscribe function then leaves the callback
    unregistered for that event type. *)
Theorem subscribe_then_unsubscribe
    (eventType : string) (callback : nat) (listeners : Listeners.Registry) :
  well_formed listeners →
  (callback ∉ default [] (listeners !! eventType) →
   Listeners.unsubscribe eventType callback (Listeners.on eventType callback listeners)
   = listeners)
  ∧ (callback ∈ default [] (listeners !! eventType) →
     Listeners.on eventType callback listeners = listeners
     ∧ callback ∉ default []
         (Listeners.unsubscribe eventType callback
            (Listeners.on eventType callback listeners) !! eventType)).
Proof.
  intros Hwf. split.
  - intros Hnew. unfold Listeners.unsubscribe. rewrite on_lookup.
    assert (Hback : Listeners.set_delete callback
                      (Listeners.set_add callback (default [] (listeners !! eventType)))
                    = default [] (listeners !! eventType)).
    { unfold Listeners.set_add. rewrite decide_False by exact Hnew.
      unfold Listeners.set_delete. rewrite filter_app.
      rewrite (filter_cons _ callback), decide_False by (intros Hne; by apply Hne).
      rewrite filter_nil, app_nil_r. by apply set_delete_absent. }
    cbv zeta. rewrite Hback.
    unfold Listeners.on.
    destruct (listeners !! eventType) as [l|] eqn:Hl; simpl.
    + destruct (Hwf eventType l Hl) as [_ Hne].
      rewrite decide_False by (intros Hlen; by apply Hne, nil_length_inv).
      rewrite insert_alter_eq. by apply insert_id.
    + rewrite alter_insert_eq. by apply delete_insert_id.
  - intros Hold. split.
    + unfold Listeners.on.
      destruct (listeners !! eventType) as [l|] eqn:Hl; [|by apply elem_of_nil in Hold].
      apply alter_id. intros l' Hl'. rewrite Hl in Hl'. injection Hl' as <-.
      unfold Listeners.set_add. by rewrite decide_True.
    + rewrite unsubscribe_lookup. apply set_delete_gone.
Qed.

Lemma subscribe_then_unsubscribe_witness :
  let listeners : Listeners.Registry := {[ "agent_message" := [1; 2] ]} in
  Listeners.unsubscribe "pong" 3 (Listeners.on "pong" 3 listeners) = listeners
  ∧ Listeners.on "agent_message" 2 listeners = listeners.
Proof.
  intros listeners.
  assert (Hwf : well_formed listeners).
  { intros k l Hl. subst listeners.
    apply lookup_singleton_Some in Hl as [_ <-].
    split; [|done]. apply NoDup_cons. split; [|apply NoDup_singleton].
    intros Hin. apply list_elem_of_singleton in Hin. discriminate Hin. }
  destruct (subscribe_then_unsubscribe "pong" 3 listeners Hwf) as [Hnew _].
  destruct (subscribe_then_unsubscribe "agent_message" 2 listeners Hwf) as [_ Hold].
  split.
  - apply Hnew. subst listeners. rewrite lookup_singleton_ne by done.
    apply not_elem_of_nil.
  - apply Hold. subst listeners. rewrite lookup_singleton_eq. simpl.
    right. by left.
Defined.

(** X21. The registry stays well formed: the empty registry has no empty
    set and no repetition, and neither has the registry after [on] or
    after an unsubscribe function; [on] and unsubscribe touch the set of
    their event type only. *)
Theorem registry_stays_well_formed
    (eventType : string) (callback : nat) (listeners : Listeners.Registry) :
  well_formed ∅
  ∧ (well_formed listeners →
     well_formed (Listeners.on eventType callback listeners)
     ∧ well_formed (Listeners.unsubscribe eventType callback listeners))
  ∧ (∀ k : string, k ≠ eventType →
       Listeners.on eventType callback listeners !! k = listeners !! k
       ∧ Listeners.unsubscribe eventType callback listeners !! k = listeners !! k).
Proof.
  split; [|split].
  - intros k l Hl. by rewrite lookup_empty in Hl.
  - intros Hwf. split.
    + intros k l Hl. destruct (decide (k = eventType)) as [->|Hk].
      * rewrite on_lookup in Hl. injection Hl as <-.
        unfold Listeners.set_add.
        destruct (listeners !! eventType) as [l0|] eqn:Hl0; simpl.
        -- destruct (Hwf eventType l0 Hl0) as [Hnd Hne].
           case_decide as Hin; [done|]. split.
           ++ apply NoDup_app. split; [done|]. split; [|apply NoDup_singleton].
              intros x Hx Hx'. apply list_elem_of_singleton in Hx'. by subst x.
           ++ by destruct l0.
        -- split; [apply NoDup_singleton | done].
      * rewrite on_lookup_ne in Hl by done. by apply (Hwf k).
    + intros k l Hl. destruct (decide (k = eventType)) as [->|Hk].
      * unfold Listeners.unsubscribe in Hl.
        destruct (listeners !! eventType) as [l0|] eqn:Hl0; [|by rewrite Hl0 in Hl].
        simpl in Hl. case_decide as Hlen.
        -- by rewrite lookup_delete_eq in Hl.
        -- rewrite lookup_insert_eq in Hl. injection Hl as <-.
           destruct (Hwf eventType l0 Hl0) as [Hnd _]. split.
           ++ unfold Listeners.set_delete. by apply NoDup_filter.
           ++ intros Hnil. apply Hlen. by rewrite Hnil.
      * rewrite unsubscribe_lookup_ne in Hl by done. by apply (Hwf k).
  - intros k Hk. split; [by apply on_lookup_ne | by apply unsubscribe_lookup_ne].
Qed.

Lemma registry_stays_well_formed_witness :
  well_formed (Listeners.unsubscribe "pong" 1
                 (Listeners.on "pong" 2 (Listeners.on "pong" 1 ∅))).
Proof.
  destruct (registry_stays_well_formed "pong" 1 ∅) as (Hempty & Hstep1 & _).
  destruct (Hstep1 Hempty) as [Hon1 _].
  destruct (registry_stays_well_formed "pong" 2 (Listeners.on "pong" 1 ∅))
    as (_ & Hstep2 & _).
  destruct (Hstep2 Hon1) as [Hon2 _].
  destruct (registry_stays_well_formed "pong" 1
              (Listeners.on "pong" 2 (Listeners.on "pong" 1 ∅))) as (_ & Hstep3 & _).
  by destruct (Hstep3 Hon2) as [_ Hun].
Defined.

(** X22. A callback subscribed to an event type is invoked when that event
    is notified, whether or not other callbacks throw; after its
    unsubscribe function has been called it is no longer invoked for that
    event type, unless it is also a wildcard listener. The callbacks of
    the event type are invoked before the wildcard listeners, and an event
    whose type is the wildcard itself invokes every wildcard listener
    twice. *)
Theorem subscribed_callbacks_are_notified
    (throws : nat → bool) (eventType : string) (callback : nat)
    (listeners : Listeners.Registry) :
  callback ∈ (Listeners.notifyListeners throws eventType
                (Listeners.on eventType callback listeners)).1
  ∧ ((eventType ≠ "*" → callback ∉ default [] (listeners !! "*")) →
     callback ∉ (Listeners.notifyListeners throws eventType
                   (Listeners.unsubscribe eventType callback listeners)).1)
  ∧ (Listeners.notifyListeners throws eventType listeners).1
    = default [] (listeners !! eventType) ++ default [] (listeners !! "*")
  ∧ (Listeners.notifyListeners throws "*" listeners).1
    = default [] (listeners !! "*") ++ default [] (listeners !! "*")
  ∧ (∀ c, c ∈ (Listeners.notifyListeners throws eventType listeners).2
          ↔ c ∈ (Listeners.notifyListeners throws eventType listeners).1
            ∧ throws c = true).
Proof.
  split; [|split; [|split; [done|split; [done|]]]].
  - unfold Listeners.notifyListeners. simpl. rewrite on_lookup. simpl.
    apply elem_of_app. left. apply set_add_adds.
  - intros Hwild. unfold Listeners.notifyListeners. simpl.
    apply not_elem_of_app. split.
    + rewrite unsubscribe_lookup. apply set_delete_gone.
    + destruct (decide (eventType = "*")) as [->|Hne].
      * rewrite unsubscribe_lookup. apply set_delete_gone.
      * rewrite unsubscribe_lookup_ne by done. by apply Hwild.
  - intros c. unfold Listeners.notifyListeners. simpl.
    rewrite !elem_of_app, !list_elem_of_filter. tauto.
Qed.

Lemma subscribed_callbacks_are_notified_witness :
  let listeners : Listeners.Registry := Listeners.on "*" 9 (Listeners.on "pong" 1 ∅) in
  1 ∉ (Listeners.notifyListeners (λ _, true) "pong"
         (Listeners.unsubscribe "pong" 1 listeners)).1.
Proof.
  intros listeners.
  destruct (subscribed_callbacks_are_notified (λ _, true) "pong" 1 listeners)
    as (_ & Hgone & _).
  apply Hgone. intros _. subst listeners.
  rewrite on_lookup. rewrite on_lookup_ne by done.
  rewrite lookup_empty. simpl. unfold Listeners.set_add.
  rewrite decide_False by apply not_elem_of_nil. simpl.
  intros Hin. apply list_elem_of_singleton in Hin. discriminate Hin.
Defined.
